(** * stddata: indexed lookup providers (country, language)

    A shallow embedding of [country/countryprovider.go] and of the language
    provider, and the properties of their [Load], [storeData], [Search] and
    [doSearch].

    Go values are embedded as follows.
    - A Go [string] is a sequence of bytes: Stdlib's [string], whose
      characters are the 8-bit [ascii]. [len(s)] is [String.length s] and
      [s[0:n]] is [substring 0 n s], both counted in bytes.
    - A slice is a [list]; the nil slice is [[]].
    - A [map[string]V] is a [gmap string V]; reading a missing key gives the
      zero value of [V].
    - A run-time panic is the [Panic] outcome of the [outcome] monad. *)

From Stdlib Require Import ZArith Ascii String List Sorted Permutation Lia.
From stdpp Require Import base option list sorting gmap strings pretty.

Local Open Scope nat_scope.

(** ** Run-time panics *)

Inductive runtimeError : Type :=
  | NilDereference
  | IndexOutOfRange (i n : nat)
  | SliceOutOfRange (hi n : nat)
  | NilMapAssignment.

Inductive outcome (A : Type) : Type :=
  | Ret (a : A)
  | Panic (e : runtimeError).
Arguments Ret {A} a.
Arguments Panic {A} e.

Global Instance outcome_ret : MRet outcome := λ A a, Ret a.
Global Instance outcome_bind : MBind outcome := λ A B k c,
  match c with
  | Ret a => k a
  | Panic e => Panic e
  end.

Definition returns {A} (c : outcome A) : Prop := ∃ a, c = Ret a.

(** [l[i]] on a slice: panics out of range. *)
Definition slice_get {A} (l : list A) (i : nat) : outcome A :=
  match l !! i with
  | Some x => Ret x
  | None => Panic (IndexOutOfRange i (length l))
  end.

(** [l[i] = x] on a slice: panics out of range. *)
Definition slice_set {A} (l : list A) (i : nat) (x : A) : outcome (list A) :=
  if decide (i < length l) then Ret (<[i:=x]> l)
  else Panic (IndexOutOfRange i (length l)).

(** [l[0:hi]] on a slice whose capacity is its length. *)
Definition slice_upto {A} (l : list A) (hi : nat) : outcome (list A) :=
  if decide (hi ≤ length l) then Ret (take hi l)
  else Panic (SliceOutOfRange hi (length l)).

(** [s[0:hi]] on a string. *)
Definition str_upto (s : string) (hi : nat) : outcome string :=
  if decide (hi ≤ String.length s) then Ret (substring 0 hi s)
  else Panic (SliceOutOfRange hi (String.length s)).

(** ** [sort.Strings]: byte-wise ascending order *)

(** Go's [<=] on strings compares byte by byte. [String.leb] compares the
    codes of the 8-bit characters one after the other, and stdpp's
    [String.le] is its [Prop] form, with its order instances. *)
Abbreviation str_le := String.le.
Definition str_lt (s t : string) : Prop := str_le s t ∧ s ≠ t.

(** [sort.Strings] is library code. It is embedded as a merge sort for
    [str_le]; [sort_Strings_unique] below shows that every sorting algorithm
    returns the same slice. *)
Definition sort_Strings (ks : list string) : list string :=
  merge_sort str_le ks.

(** ** [strings.EqualFold] *)

Local Open Scope Z_scope.

Definition byte (c : ascii) : Z := Z.of_N (N_of_ascii c).

Definition RuneError : Z := 0xFFFD.
Definition RuneSelf : Z := 0x80.
Definition locb : Z := 0x80.
Definition hicb : Z := 0xBF.
Definition maskx : Z := 0x3F.
Definition mask2 : Z := 0x1F.
Definition mask3 : Z := 0x0F.
Definition mask4 : Z := 0x07.

(** The table [first] of package [utf8] with its [acceptRanges]: for a lead
    byte, the length of the encoding and the range accepted for the second
    byte; [None] for an ASCII byte and for an invalid lead byte. *)
Definition first (s0 : Z) : option (nat * Z * Z) :=
  if s0 <? 0xC2 then None
  else if s0 <=? 0xDF then Some (2%nat, locb, hicb)
  else if s0 =? 0xE0 then Some (3%nat, 0xA0, hicb)
  else if s0 <=? 0xEC then Some (3%nat, locb, hicb)
  else if s0 =? 0xED then Some (3%nat, locb, 0x9F)
  else if s0 <=? 0xEF then Some (3%nat, locb, hicb)
  else if s0 =? 0xF0 then Some (4%nat, 0x90, hicb)
  else if s0 <=? 0xF3 then Some (4%nat, locb, hicb)
  else if s0 =? 0xF4 then Some (4%nat, locb, 0x8F)
  else None.

(** [s[i]] where the caller has checked [i < len(s)]. *)
Definition byte_at (s : string) (i : nat) : Z :=
  match String.get i s with
  | Some c => byte c
  | None => 0
  end.

(** [s[n:]]. *)
Fixpoint str_from (s : string) (n : nat) : string :=
  match n, s with
  | S n', String _ s' => str_from s' n'
  | _, _ => s
  end.

(** [utf8.DecodeRuneInString]: the first rune of [s] and its width in
    bytes; [(RuneError, 1)] for an invalid encoding. *)
Definition DecodeRuneInString (s : string) : Z * nat :=
  match s with
  | EmptyString => (RuneError, 0%nat)
  | String c0 _ =>
    let s0 := byte c0 in
    match first s0 with
    | None => (if s0 <? RuneSelf then s0 else RuneError, 1%nat)
    | Some (sz, lo, hi) =>
      if (String.length s <? sz)%nat then (RuneError, 1%nat) else
      let s1 := byte_at s 1 in
      if (s1 <? lo) || (hi <? s1) then (RuneError, 1%nat) else
      if (sz <=? 2)%nat then
        (Z.lor (Z.shiftl (Z.land s0 mask2) 6) (Z.land s1 maskx), 2%nat) else
      let s2 := byte_at s 2 in
      if (s2 <? locb) || (hicb <? s2) then (RuneError, 1%nat) else
      if (sz <=? 3)%nat then
        (Z.lor (Z.lor (Z.shiftl (Z.land s0 mask3) 12)
                      (Z.shiftl (Z.land s1 maskx) 6))
               (Z.land s2 maskx), 3%nat) else
      let s3 := byte_at s 3 in
      if (s3 <? locb) || (hicb <? s3) then (RuneError, 1%nat) else
      (Z.lor (Z.lor (Z.lor (Z.shiftl (Z.land s0 mask4) 18)
                           (Z.shiftl (Z.land s1 maskx) 12))
                    (Z.shiftl (Z.land s2 maskx) 6))
             (Z.land s3 maskx), 4%nat)
    end
  end.

(** The first rune of a string and the rest of the string, as both loops of
    [EqualFold] extract them: a byte below [RuneSelf] is its own rune. *)
Definition nextRune (s : string) : Z * string :=
  match s with
  | EmptyString => (RuneError, EmptyString)
  | String c s' =>
    if byte c <? RuneSelf then (byte c, s')
    else let '(r, size) := DecodeRuneInString s in (r, str_from s size)
  end.

Section EqualFold.

(** The Unicode case orbits are tables of Go's run-time library.
    [caseOrbit sr tr], for [sr < tr] and [tr >= RuneSelf], stands for the
    outcome [r == tr] of
    [r := unicode.SimpleFold(sr); for r != sr && r < tr { r = unicode.SimpleFold(r) }]. *)
Variable caseOrbit : Z → Z → bool.

(** The comparison of one rune of each string. *)
Definition foldRunes (sr tr : Z) : bool :=
  if tr =? sr then true else
  let lo := Z.min sr tr in
  let hi := Z.max sr tr in
  if hi <? RuneSelf then
    (65 <=? lo) && (lo <=? 90) && (hi =? lo + 97 - 65)
  else caseOrbit lo hi.

(** Each turn of the loop takes at least one byte off [s]; [fuel] bounds
    the number of turns. *)
Fixpoint EqualFold_loop (fuel : nat) (s t : string) : bool :=
  match s, t with
  | EmptyString, _ => bool_decide (t = EmptyString)
  | String _ _, EmptyString => false
  | String _ _, String _ _ =>
    match fuel with
    | O => false
    | S fuel' =>
      let '(sr, s') := nextRune s in
      let '(tr, t') := nextRune t in
      foldRunes sr tr && EqualFold_loop fuel' s' t'
    end
  end.

Definition EqualFold (s t : string) : bool :=
  EqualFold_loop (String.length s) s t.

End EqualFold.

Local Close Scope Z_scope.

(** A part of the Unicode case orbits, as an instance of [caseOrbit] to run
    the definitions on: the capital letters U+00C0 to U+00DE of Latin-1 with
    their small forms, K and k with the Kelvin sign, S and s with the long
    s, and the A with ring, capital and small, with the Angstrom sign. *)
Definition latin1Orbit (sr tr : Z) : bool :=
  ((0xC0 <=? sr) && (sr <=? 0xDE) && negb (sr =? 0xD7) && (tr =? sr + 32)
   || ((sr =? 75) || (sr =? 107)) && (tr =? 0x212A)
   || ((sr =? 83) || (sr =? 115)) && (tr =? 0x17F)
   || ((sr =? 0xC5) || (sr =? 0xE5)) && (tr =? 0x212B))%Z.

(** ** Errors *)

(** Modelled from the spec: the type [stddata.ServiceError] is declared in
    the root package of the repository, which is not among the sources. The
    providers build it from a message and an HTTP status, the two kinds of
    the spec's error surface being status 503 ("service unavailable") and
    status 400 ("bad request"). [errorString] is the error of [errors.New]. *)
Inductive error : Type :=
  | errorString (msg : string)
  | ServiceError (msg : string) (code : Z).

Definition StatusBadRequest : Z := 400.
Definition StatusServiceUnavailable : Z := 503.

(** [err.Error()] on a value of the interface type [error]; [None] is the
    nil interface, on which the call panics. *)
Definition error_Error (err : option error) : outcome string :=
  match err with
  | None => Panic NilDereference
  | Some (errorString msg) => Ret msg
  | Some (ServiceError msg _) => Ret msg
  end.

(** ** [csv.Reader] *)

(** The framing of the byte stream into lines and fields is the work of
    [encoding/csv]. A stream is embedded after framing: each line is the
    list of its fields, or a failure of the underlying reader or of the
    framing with its message. A stream has one record a line and no empty
    line, as the data of both packages has: the line on which a record
    stands is its rank in the stream, from 1. *)
Inductive csvLine : Type :=
  | Fields (fs : list string)
  | Broken (msg : string).

Inductive readError : Type :=
  | EOF
  | ReadFailure (msg : string).

Definition ErrFieldCount : string := "wrong number of fields".

(** The text of the [ParseError] that the reader returns for a record with
    the wrong number of fields: it names the line of the record. *)
Definition fieldCountError (line : nat) : string :=
  "record on line " +:+ pretty line +:+ ": " +:+ ErrFieldCount.

Definition readError_Error (e : readError) : string :=
  match e with
  | EOF => "EOF"
  | ReadFailure msg => msg
  end.

(** What [reader.Read()] returns with [reader.FieldsPerRecord = n], for [n]
    positive, when the next line is line [line] of the stream: the record
    and the error. *)
Definition csvRead_line (n line : nat) (ln : csvLine)
    : list string * option readError :=
  match ln with
  | Fields fs =>
    if decide (length fs = n) then (fs, None)
    else (fs, Some (ReadFailure (fieldCountError line)))
  | Broken msg => ([], Some (ReadFailure msg))
  end.

(** [reader.Read()] on a reader that has read [r.1] lines and has the lines
    [r.2] left: the record, the error, and the reader after the call. A
    reader made by [csv.NewReader] has read no line. *)
Definition csvRead (n : nat) (r : nat * list csvLine)
    : list string * option readError * (nat * list csvLine) :=
  match r.2 with
  | [] => ([], Some EOF, r)
  | ln :: rest => (csvRead_line n (S r.1) ln, (S r.1, rest))
  end.

(** ** The index store and the search engine

    [countryprovider.go] and the language provider declare the same
    structures and the same [storeData] and [doSearch], one over [Country]
    and one over [Language]. They are embedded once, over the type of the
    entities: [Index] is [countryIndex] and [languageIndex] (fields
    [countryMap]/[languageMap] and [countryKeys]/[languageKeys]), [Provider]
    is [CountryProvider] and [LanguageProvider] (field
    [countryIndexes]/[languageIndexes]). *)

Fixpoint foldM {S X : Type} (body : S → X → outcome S) (s : S) (xs : list X)
    : outcome S :=
  match xs with
  | [] => Ret s
  | x :: xs' => s' ← body s x; foldM body s' xs'
  end.

Section Core.

Context {Entity : Type}.

Record Index : Type := mkIndex {
  indexMap : gmap string (list Entity);
  indexKeys : list string
}.

(** [psize] is the field [size]. [indexes] is [None] for the nil map of a
    provider that was never loaded. *)
Record Provider : Type := mkProvider {
  loaded : bool;
  psize : nat;
  indexes : option (gmap string Index)
}.

(** [p.countryIndexes[index]] with its [found]: the nil map has no
    index. *)
Definition indexNamed (p : Provider) (index : string) : option Index :=
  idx ← indexes p; idx !! index.

(** [m[k]] on a map of groups: the nil slice for a missing key. *)
Definition group (m : gmap string (list Entity)) (k : string) : list Entity :=
  default [] (m !! k).

(** [m[k] = append(m[k], c)]. *)
Definition addTo (m : gmap string (list Entity)) (k : string) (c : Entity)
    : gmap string (list Entity) :=
  <[k := group m k ++ [c]]> m.

(** Go leaves the order in which [range] visits a map unspecified:
    [rangeKeys m] is the order the run time picks for [m]. *)
Variable rangeKeys : gmap string (list Entity) → list string.

Definition storeData (s : string) (m : gmap string (list Entity))
    (p : Provider) : outcome Provider :=
  let keys0 := replicate (size m) EmptyString in
  st ← foldM (λ '(keys, i) k, keys' ← slice_set keys i k; Ret (keys', S i))
             (keys0, 0) (rangeKeys m);
  let ci := mkIndex m (sort_Strings st.1) in
  match indexes p with
  | None => Panic NilMapAssignment
  | Some idx => Ret (mkProvider (loaded p) (psize p) (Some (<[s := ci]> idx)))
  end.

Variable caseOrbit : Z → Z → bool.

(** One turn of the loop of [doSearch], on [tmp] and [i]. *)
Definition doSearch_step (ci : Index) (query : string) (dump : bool)
    (st : list (list Entity) * nat) (k : nat)
    : outcome (list (list Entity) * nat) :=
  let '(tmp, i) := st in
  key ← slice_get (indexKeys ci) k;
  if dump then
    tmp' ← slice_set tmp i (group (indexMap ci) key);
    Ret (tmp', S i)
  else if decide (String.length query ≤ String.length key) then
    pre ← str_upto key (String.length query);
    if EqualFold caseOrbit query pre then
      tmp' ← slice_set tmp i (group (indexMap ci) key);
      Ret (tmp', S i)
    else Ret (tmp, i)
  else Ret (tmp, i).

(** The result is the field [Countries] (or [Languages]) of the result
    structure. *)
Definition doSearch (ci : Index) (query : string)
    : outcome (list (list Entity)) :=
  let dump := bool_decide (query = "_dump") in
  let tmp := replicate (length (indexKeys ci)) [] in
  st ← foldM (doSearch_step ci query dump) (tmp, 0)
             (seq 0 (length (indexKeys ci)));
  slice_upto st.1 st.2.

End Core.

Arguments Index : clear implicits.
Arguments Provider : clear implicits.

(** ** Package [country] *)

Module country.

Record Country : Type := mkCountry {
  EnglishName : string;
  Alpha2Code : string;
  Alpha3Code : string;
  NumericCode : string
}.

Abbreviation CountryProvider := (Provider Country).
Abbreviation countryIndex := (Index Country).

(** The package-level variables: the four maps, and what is left to read
    of the reader [countrydata]. *)
Record globals : Type := mkGlobals {
  englishNameMap : gmap string (list Country);
  alpha2Map : gmap string (list Country);
  alpha3Map : gmap string (list Country);
  numericMap : gmap string (list Country);
  countrydata : list csvLine
}.

(** The loop of [Load], one turn for each [reader.Read()] (see
    [country_Load_loop_Read]), on a reader that has read [line] lines and
    has the lines [rd] left. The empty stream is the turn in which
    [err == io.EOF] and the loop is left, with [countrydata] at its end.

    When the loop ends on an error, the reader has read ahead of the line
    it fails on, into a buffer that is lost with the reader: what a later
    reader finds in [countrydata] depends on the lengths in bytes of the
    lines, which a framed stream does not hold, and may start within a
    line. It is the input [unread] of the loop. *)
Fixpoint Load_loop (unread : list csvLine) (line : nat) (rd : list csvLine)
    (g : globals) : outcome (globals * option error) :=
  match rd with
  | [] =>
    Ret (mkGlobals (englishNameMap g) (alpha2Map g) (alpha3Map g)
           (numericMap g) [], None)
  | ln :: rest =>
    let '(record, err) := csvRead_line 4 (S line) ln in
    match err with
    | Some e =>
      Ret (mkGlobals (englishNameMap g) (alpha2Map g) (alpha3Map g)
             (numericMap g) unread,
           Some (ServiceError (readError_Error e) StatusServiceUnavailable))
    | None =>
      r0 ← slice_get record 0;
      r1 ← slice_get record 1;
      r2 ← slice_get record 2;
      r3 ← slice_get record 3;
      let c := mkCountry r0 r1 r2 r3 in
      Load_loop unread (S line) rest
        (mkGlobals (addTo (englishNameMap g) (EnglishName c) c)
                   (addTo (alpha2Map g) (Alpha2Code c) c)
                   (addTo (alpha3Map g) (Alpha3Code c) c)
                   (addTo (numericMap g) (NumericCode c) c)
                   (countrydata g))
    end
  end.

Section Provider.

Variable rangeKeys : gmap string (list Country) → list string.

(** What is left of [countrydata] for a later reader if this [Load] fails
    (see [Load_loop]). *)
Variable unread : list csvLine.

Variable caseOrbit : Z → Z → bool.

Definition Load (p : CountryProvider) (g : globals)
    : outcome (CountryProvider * globals * (nat * option error)) :=
  let p := mkProvider (loaded p) (psize p) (Some ∅) in
  st ← Load_loop unread 0 (countrydata g) (mkGlobals ∅ ∅ ∅ ∅ (countrydata g));
  let g := st.1 in
  match st.2 with
  | Some e => Ret (p, g, (0, Some e))
  | None =>
    p ← storeData rangeKeys "name" (englishNameMap g) p;
    p ← storeData rangeKeys "alpha2" (alpha2Map g) p;
    p ← storeData rangeKeys "alpha3" (alpha3Map g) p;
    p ← storeData rangeKeys "number" (numericMap g) p;
    let p := mkProvider (loaded p) (size (englishNameMap g)) (indexes p) in
    let p := mkProvider true (psize p) (indexes p) in
    Ret (p, g, (size (englishNameMap g), None))
  end.

(** The result is [None] for the nil interface and [Some groups] for a
    [CountryResult] whose field [Countries] is [groups]. *)
Definition Search (p : CountryProvider) (index query : string)
    : outcome (option (list (list Country)) * option error) :=
  if negb (loaded p) then
    Ret (None, Some (errorString
      "this should be a 503 Service Unavailable by the time it gets to the client"))
  else
    match indexNamed p index with
    | None =>
      let msg := "No index on " +:+ index in
      Ret (None, Some (ServiceError msg StatusBadRequest))
    | Some ci =>
      result ← doSearch caseOrbit ci query;
      Ret (Some result, None)
    end.

End Provider.

End country.

(** ** Package [language] *)

Module language.

Record Language : Type := mkLanguage {
  Alpha3bibliographic : string;
  Alpha3terminologic : string;
  Alpha2 : string;
  EnglishName : string;
  FrenchName : string
}.

Abbreviation LanguageProvider := (Provider Language).
Abbreviation languageIndex := (Index Language).

Record globals : Type := mkGlobals {
  alphaMap : gmap string (list Language);
  englishNameMap : gmap string (list Language)
}.

(** The loop of [Load], on a reader that has read [line] lines of the body
    and has the lines [rd] left. *)
Fixpoint Load_loop (line : nat) (rd : list csvLine) (g : globals)
    : outcome (globals * option error) :=
  match rd with
  | [] => Ret (g, None)
  | ln :: rest =>
    let '(record, err) := csvRead_line 5 (S line) ln in
    match err with
    | Some e =>
      Ret (g, Some (ServiceError (readError_Error e) StatusServiceUnavailable))
    | None =>
      r0 ← slice_get record 0;
      r1 ← slice_get record 1;
      r2 ← slice_get record 2;
      r3 ← slice_get record 3;
      r4 ← slice_get record 4;
      let l := mkLanguage r0 r1 r2 r3 r4 in
      Load_loop (S line) rest
        (mkGlobals (addTo (alphaMap g) (Alpha3bibliographic l) l)
                   (addTo (englishNameMap g) (EnglishName l) l))
    end
  end.

Section Provider.

Variable rangeKeys : gmap string (list Language) → list string.
Variable caseOrbit : Z → Z → bool.

(** [get] is what [http.Get] answers: the message of its error, or the
    lines of the body of the response. *)
Definition Load (get : string + list csvLine) (p : LanguageProvider)
    (g : globals)
    : outcome (LanguageProvider * globals * (nat * option error)) :=
  let p := mkProvider (loaded p) (psize p) (Some ∅) in
  let g := mkGlobals ∅ ∅ in
  match get with
  | inl msg => Ret (p, g, (0, Some (ServiceError msg StatusServiceUnavailable)))
  | inr body =>
    st ← Load_loop 0 body g;
    let g := st.1 in
    match st.2 with
    | Some e => Ret (p, g, (0, Some e))
    | None =>
      p ← storeData rangeKeys "alpha" (alphaMap g) p;
      p ← storeData rangeKeys "name" (englishNameMap g) p;
      let p := mkProvider (loaded p) (size (alphaMap g)) (indexes p) in
      let p := mkProvider true (psize p) (indexes p) in
      Ret (p, g, (size (alphaMap g), None))
    end
  end.

(** [err] is the named result of [Search], nil when the function is
    entered: the not-loaded branch calls [err.Error()] on it. *)
Definition Search (p : LanguageProvider) (index query : string)
    : outcome (option (list (list Language)) * option error) :=
  let err : option error := None in
  if negb (loaded p) then
    msg ← error_Error err;
    Ret (None, Some (ServiceError msg StatusServiceUnavailable))
  else
    match indexNamed p index with
    | None =>
      let msg := "No index on " +:+ index in
      Ret (None, Some (ServiceError msg StatusBadRequest))
    | Some li =>
      result ← doSearch caseOrbit li query;
      Ret (Some result, None)
    end.

End Provider.

End language.

(** ** Vocabulary of the statements *)

(** What is known of the order in which [range] visits a map: each key of
    the map once. *)
Definition range_ok {E : Type} (rangeKeys : gmap string (list E) → list string)
    : Prop :=
  ∀ m, rangeKeys m ≡ₚ (map_to_list m).*1.

(** Two orders of iteration to run the definitions on. *)
Definition rangeAscending {E : Type} (m : gmap string (list E)) : list string :=
  (map_to_list m).*1.

Definition rangeDescending {E : Type} (m : gmap string (list E)) : list string :=
  reverse (map_to_list m).*1.

(** The prefix test of the search, on a key: the query is no longer than
    the key, and folds to the first [len(query)] bytes of the key. *)
Definition foldsToPrefix (caseOrbit : Z → Z → bool) (query key : string) : bool :=
  bool_decide (String.length query ≤ String.length key)
  && EqualFold caseOrbit query (substring 0 (String.length query) key).

(** The keys a query selects. *)
Definition selects (caseOrbit : Z → Z → bool) (query key : string) : bool :=
  if bool_decide (query = "_dump") then true
  else foldsToPrefix caseOrbit query key.

(** A line that [reader.Read()] returns without error when
    [FieldsPerRecord] is [n]. *)
Definition lineOK (n : nat) (ln : csvLine) : bool :=
  match ln with
  | Fields fs => bool_decide (length fs = n)
  | Broken _ => false
  end.

(** A stream that is read to its end without error. *)
Definition streamOK (n : nat) (rd : list csvLine) : bool :=
  forallb (lineOK n) rd.

(** The fields of a line. *)
Definition fieldsOf (ln : csvLine) : list string :=
  match ln with
  | Fields fs => fs
  | Broken _ => []
  end.

(** The map that the loop of [Load] builds from the entities [es] for the
    key [key], starting from [m0]: [m[key(c)] = append(m[key(c)], c)] for
    each entity in turn. *)
Definition groupBy {E : Type} (key : E → string) (m0 : gmap string (list E))
    (es : list E) : gmap string (list E) :=
  foldl (λ m c, addTo m (key c) c) m0 es.

(** The index that [storeData] stores for a map. *)
Definition indexOf {E : Type} (rangeKeys : gmap string (list E) → list string)
    (m : gmap string (list E)) : Index E :=
  mkIndex m (sort_Strings (rangeKeys m)).

(** The entity that [Load] makes of the fields of a record. *)
Definition countryOf (ln : csvLine) : country.Country :=
  let fs := fieldsOf ln in
  country.mkCountry (nth 0 fs EmptyString) (nth 1 fs EmptyString)
    (nth 2 fs EmptyString) (nth 3 fs EmptyString).

Definition languageOf (ln : csvLine) : language.Language :=
  let fs := fieldsOf ln in
  language.mkLanguage (nth 0 fs EmptyString) (nth 1 fs EmptyString)
    (nth 2 fs EmptyString) (nth 3 fs EmptyString) (nth 4 fs EmptyString).

(** The indexes of a country provider loaded from the entities [cs]. *)
Definition countryIndexesOf
    (rangeKeys : gmap string (list country.Country) → list string)
    (cs : list country.Country) : gmap string (Index country.Country) :=
  <["number" := indexOf rangeKeys (groupBy country.NumericCode ∅ cs)]>
  (<["alpha3" := indexOf rangeKeys (groupBy country.Alpha3Code ∅ cs)]>
  (<["alpha2" := indexOf rangeKeys (groupBy country.Alpha2Code ∅ cs)]>
  (<["name" := indexOf rangeKeys (groupBy country.EnglishName ∅ cs)]> ∅))).

(** The indexes of a language provider loaded from the entities [ls]. *)
Definition languageIndexesOf
    (rangeKeys : gmap string (list language.Language) → list string)
    (ls : list language.Language) : gmap string (Index language.Language) :=
  <["name" := indexOf rangeKeys (groupBy language.EnglishName ∅ ls)]>
  (<["alpha" := indexOf rangeKeys (groupBy language.Alpha3bibliographic ∅ ls)]> ∅).

(** A provider on which [Load] has returned without error. *)
Definition countryLoaded
    (rangeKeys : gmap string (list country.Country) → list string)
    (p : Provider country.Country) : Prop :=
  ∃ unread p0 g0 g n, country.Load rangeKeys unread p0 g0 = Ret (p, g, (n, None)).

Definition languageLoaded
    (rangeKeys : gmap string (list language.Language) → list string)
    (p : Provider language.Language) : Prop :=
  ∃ get p0 g0 g n, language.Load rangeKeys get p0 g0 = Ret (p, g, (n, None)).

(** A search that returns, without error, the groups of the keys [ks] of
    the index [ci], in the order of [ks]. *)
Definition returnsGroups {E : Type}
    (res : outcome (option (list (list E)) * option error))
    (ci : Index E) (ks : list string) : Prop :=
  res = Ret (Some (group (indexMap ci) <$> ks), None).

(** Indexes that [storeData] has stored. *)
Definition builtIndexes {E : Type}
    (rangeKeys : gmap string (list E) → list string)
    (idx : gmap string (Index E)) : Prop :=
  ∀ s ci, idx !! s = Some ci → ∃ m, ci = indexOf rangeKeys m.

(** The provider before [Load]: the zero value of the structure. *)
Definition zeroProvider {E : Type} : Provider E := mkProvider false 0 None.

(** A stream of three countries and the provider loaded from it. *)
Definition sampleStream : list csvLine :=
  [ Fields ["Afghanistan"; "AF"; "AFG"; "004"];
    Fields ["Åland Islands"; "AX"; "ALA"; "248"];
    Fields ["Albania"; "AL"; "ALB"; "008"] ].

Definition sampleGlobals : country.globals :=
  country.mkGlobals ∅ ∅ ∅ ∅ sampleStream.

Definition sampleCountries : Provider country.Country :=
  mkProvider true 3
    (Some (countryIndexesOf rangeAscending (countryOf <$> sampleStream))).

(** A body of three languages, two of them under one English name, and the
    provider loaded from it. *)
Definition sampleBody : list csvLine :=
  [ Fields ["fre"; "fra"; "fr"; "French"; "français"];
    Fields ["dut"; "nld"; "nl"; "Dutch; Flemish"; "néerlandais; flamand"];
    Fields ["eng"; EmptyString; "en"; "English"; "anglais"];
    Fields ["enm"; EmptyString; EmptyString; "English"; "anglais moyen"] ].

Definition sampleLanguages : Provider language.Language :=
  mkProvider true 4
    (Some (languageIndexesOf rangeAscending (languageOf <$> sampleBody))).

(** A stream whose second line has three fields. *)
Definition brokenStream : list csvLine :=
  [ Fields ["Afghanistan"; "AF"; "AFG"; "004"];
    Fields ["Albania"; "AL"; "ALB"] ].

(** A stream of two records under one English name. *)
Definition repeatedStream : list csvLine :=
  [ Fields ["Georgia"; "GE"; "GEO"; "268"];
    Fields ["Georgia"; "GS"; "SGS"; "239"] ].

(** The indexes that [Load] stores: the name of each index and the
    attribute of the entity that [Load] takes its keys from. *)
Definition countryIndexDefinitions : list (string * (country.Country → string)) :=
  [ ("name", country.EnglishName); ("alpha2", country.Alpha2Code);
    ("alpha3", country.Alpha3Code); ("number", country.NumericCode) ].

Definition languageIndexDefinitions
    : list (string * (language.Language → string)) :=
  [ ("alpha", language.Alpha3bibliographic); ("name", language.EnglishName) ].

(** The answer to a query in terms of the loaded entities [es] and of the
    attribute [key]: the distinct keys in ascending byte-wise order, those
    of them that the query selects, and for each the entities of that key in
    the order of [es]. *)
Definition matchingGroups {E : Type} (caseOrbit : Z → Z → bool)
    (key : E → string) (es : list E) (query : string) : list (list E) :=
  (λ k, List.filter (λ c, bool_decide (key c = k)) es)
  <$> List.filter (selects caseOrbit query)
        (sort_Strings (remove_dups (key <$> es))).

(** A stream that fails at its third line, before a fourth. *)
Definition failingStream : list csvLine :=
  [ Fields ["Afghanistan"; "AF"; "AFG"; "004"];
    Fields ["Albania"; "AL"; "ALB"; "008"];
    Broken "unexpected EOF";
    Fields ["Algeria"; "DZ"; "DZA"; "012"] ].

(** The package variables after the [Load] of [sampleStream]. *)
Definition sampleGlobalsLoaded : country.globals :=
  country.mkGlobals
    (groupBy country.EnglishName ∅ (countryOf <$> sampleStream))
    (groupBy country.Alpha2Code ∅ (countryOf <$> sampleStream))
    (groupBy country.Alpha3Code ∅ (countryOf <$> sampleStream))
    (groupBy country.NumericCode ∅ (countryOf <$> sampleStream)) [].

Definition sampleLanguageGlobalsLoaded : language.globals :=
  language.mkGlobals
    (groupBy language.Alpha3bibliographic ∅ (languageOf <$> sampleBody))
    (groupBy language.EnglishName ∅ (languageOf <$> sampleBody)).

(** A body of three records, two of them under one bibliographic alpha-3
    code. *)
Definition repeatedBody : list csvLine :=
  [ Fields ["ger"; "deu"; "de"; "German"; "allemand"];
    Fields ["fre"; "fra"; "fr"; "French"; "français"];
    Fields ["ger"; "deu"; "de"; "German, Standard"; "allemand standard"] ].

(** A body whose second line has four fields. *)
Definition brokenBody : list csvLine :=
  [ Fields ["fre"; "fra"; "fr"; "French"; "français"];
    Fields ["eng"; "en"; "English"; "anglais"] ].

(** ** Facts on the outcome monad and on [foldM] *)

Lemma foldM_app {S X : Type} (body : S → X → outcome S) s xs ys :
  foldM body s (xs ++ ys) = (s' ← foldM body s xs; foldM body s' ys).
Proof.
  revert s. induction xs as [|x xs IH]; intros s; simpl; [done|].
  destruct (body s x) as [s'|e]; simpl; [apply IH|done].
Qed.

Lemma slice_set_lt {A : Type} (l : list A) i x :
  i < length l → slice_set l i x = Ret (<[i:=x]> l).
Proof. intros Hi. unfold slice_set. by rewrite decide_True. Qed.

Lemma slice_get_Some {A : Type} (l : list A) i x :
  l !! i = Some x → slice_get l i = Ret x.
Proof. intros Hi. unfold slice_get. by rewrite Hi. Qed.

Lemma slice_upto_le {A : Type} (l : list A) hi :
  hi ≤ length l → slice_upto l hi = Ret (take hi l).
Proof. intros Hi. unfold slice_upto. by rewrite decide_True. Qed.

(** Writing at the first free position of a partly filled slice. *)
Lemma insert_fill {A : Type} (out rest : list A) (d x : A) :
  <[length out := x]> (out ++ d :: rest) = (out ++ [x]) ++ rest.
Proof.
  rewrite insert_app_r_alt by lia.
  replace (length out - length out) with 0 by lia.
  by rewrite <- app_assoc.
Qed.

(** ** [sort.Strings] *)

Lemma sort_Strings_Permutation ks : sort_Strings ks ≡ₚ ks.
Proof. apply merge_sort_Permutation. Qed.

Lemma sort_Strings_Sorted ks : Sorted str_le (sort_Strings ks).
Proof. apply (Sorted_merge_sort str_le). Qed.

Lemma sort_Strings_StronglySorted ks : StronglySorted str_le (sort_Strings ks).
Proof. apply (StronglySorted_merge_sort str_le). Qed.

(** Whatever the algorithm, the sorted slice is the same. *)
Lemma sort_Strings_unique l ks :
  l ≡ₚ ks → Sorted str_le l → l = sort_Strings ks.
Proof.
  intros Hp Hs. apply (Sorted_unique str_le); [done|apply sort_Strings_Sorted|].
  by rewrite sort_Strings_Permutation.
Qed.

(** The order in which the keys come does not show after the sort. *)
Lemma sort_Strings_perm ks1 ks2 :
  ks1 ≡ₚ ks2 → sort_Strings ks1 = sort_Strings ks2.
Proof.
  intros Hp. apply sort_Strings_unique; [|apply sort_Strings_Sorted].
  by rewrite sort_Strings_Permutation.
Qed.

Lemma StronglySorted_le_lt (l : list string) :
  StronglySorted str_le l → NoDup l → StronglySorted str_lt l.
Proof.
  induction 1 as [|x l Hl IH Hx]; intros Hnd; [constructor|].
  apply NoDup_cons in Hnd as [Hx' Hnd].
  constructor; [by apply IH|].
  apply Forall_forall. intros y Hy. split.
  - rewrite Forall_forall in Hx. by apply Hx.
  - intros ->. by apply Hx'.
Qed.

Lemma StronglySorted_lt_NoDup (l : list string) :
  StronglySorted str_lt l → NoDup l.
Proof.
  induction 1 as [|x l Hl IH Hx]; [constructor|].
  apply NoDup_cons. split; [|done].
  intros Hin. rewrite Forall_forall in Hx. by destruct (Hx x Hin).
Qed.

(** ** [storeData] *)

Section StoreData.

Context {Entity : Type}.
Variable rangeKeys : gmap string (list Entity) → list string.
Hypothesis rangeKeys_ok : range_ok rangeKeys.

(** The loop that copies the keys fills the slice from the left. *)
Lemma storeData_fill (out ks : list string) :
  foldM (λ '(keys, i) k, keys' ← slice_set keys i k; Ret (keys', S i))
        (out ++ replicate (length ks) EmptyString, length out) ks
  = Ret (out ++ ks, length out + length ks).
Proof.
  revert out. induction ks as [|k ks IH]; intros out; simpl.
  - by rewrite app_nil_r, Nat.add_0_r.
  - rewrite slice_set_lt by (rewrite length_app; simpl; lia).
    simpl. rewrite insert_fill.
    replace (S (length out)) with (length (out ++ [k]))
      by (rewrite length_app; simpl; lia).
    rewrite IH, <- app_assoc, length_app. simpl. do 2 f_equal. lia.
Qed.

Lemma rangeKeys_length m : length (rangeKeys m) = size m.
Proof.
  rewrite (Permutation_length (rangeKeys_ok m)), length_fmap.
  apply length_map_to_list.
Qed.

Lemma rangeKeys_elem_of m k : k ∈ rangeKeys m ↔ is_Some (m !! k).
Proof.
  rewrite (rangeKeys_ok m), list_elem_of_fmap. split.
  - intros [[k' v] [-> Hin]]. apply elem_of_map_to_list in Hin. by exists v.
  - intros [v Hv]. exists (k, v). split; [done|]. by apply elem_of_map_to_list.
Qed.

Lemma rangeKeys_NoDup m : NoDup (rangeKeys m).
Proof. rewrite (rangeKeys_ok m). apply NoDup_fst_map_to_list. Qed.

(** [storeData] returns when the map of the indexes is not nil, and the
    index it stores holds the map and the sorted keys. *)
Lemma storeData_eq s m (p : Provider Entity) idx :
  indexes p = Some idx →
  storeData rangeKeys s m p
  = Ret (mkProvider (loaded p) (psize p)
           (Some (<[s := mkIndex m (sort_Strings (rangeKeys m))]> idx))).
Proof.
  intros Hidx. unfold storeData.
  rewrite <- rangeKeys_length.
  pose proof (storeData_fill [] (rangeKeys m)) as Hfill. simpl in Hfill.
  rewrite Hfill. simpl. by rewrite Hidx.
Qed.

Lemma storeData_nil s m (p : Provider Entity) :
  indexes p = None → storeData rangeKeys s m p = Panic NilMapAssignment.
Proof.
  intros Hidx. unfold storeData.
  rewrite <- rangeKeys_length.
  pose proof (storeData_fill [] (rangeKeys m)) as Hfill. simpl in Hfill.
  rewrite Hfill. simpl. by rewrite Hidx.
Qed.

(** The sorted keys of a map: each key once, in strictly ascending
    byte-wise order. *)
Lemma sorted_keys_spec (m : gmap string (list Entity)) :
  let keys := sort_Strings (rangeKeys m) in
  StronglySorted str_lt keys ∧ ∀ k, k ∈ keys ↔ is_Some (m !! k).
Proof.
  simpl. split.
  - apply StronglySorted_le_lt; [apply sort_Strings_StronglySorted|].
    rewrite sort_Strings_Permutation. apply rangeKeys_NoDup.
  - intros k. rewrite sort_Strings_Permutation. apply rangeKeys_elem_of.
Qed.

End StoreData.

(** ** [doSearch] *)

Lemma str_upto_le (s : string) hi :
  hi ≤ String.length s → str_upto s hi = Ret (substring 0 hi s).
Proof. intros Hi. unfold str_upto. by rewrite decide_True. Qed.

Section DoSearch.

Context {Entity : Type}.
Variable caseOrbit : Z → Z → bool.
Variable ci : Index Entity.
Variable query : string.

(** What one turn of the loop does on a key of the index: it writes the
    group of a selected key at [i] and moves [i] on, and leaves [tmp] and
    [i] as they are on another key. No turn panics while [i] is within
    [tmp]. *)
Lemma doSearch_step_eq (tmp : list (list Entity)) i k key :
  indexKeys ci !! k = Some key →
  i < length tmp →
  doSearch_step caseOrbit ci query (bool_decide (query = "_dump")) (tmp, i) k
  = if selects caseOrbit query key
    then Ret (<[i := group (indexMap ci) key]> tmp, S i)
    else Ret (tmp, i).
Proof.
  intros Hk Hi. unfold doSearch_step, selects, foldsToPrefix.
  rewrite (slice_get_Some _ _ _ Hk). simpl.
  destruct (bool_decide (query = "_dump")).
  - by rewrite slice_set_lt.
  - destruct (decide (String.length query ≤ String.length key)) as [Hle|Hgt].
    + rewrite bool_decide_true by done.
      rewrite str_upto_le by done. simpl.
      destruct (EqualFold _ _ _); [|done]. by rewrite slice_set_lt.
    + by rewrite bool_decide_false.
Qed.

(** The loop, started after the keys [seen] with the groups [out] written:
    it ends with the groups of the selected keys of [todo] written after
    [out]. *)
Lemma doSearch_loop (todo seen : list string) (tmp out : list (list Entity)) :
  indexKeys ci = seen ++ todo →
  length tmp = length (indexKeys ci) →
  take (length out) tmp = out →
  length out ≤ length seen →
  let out' := out ++ (group (indexMap ci)
                        <$> List.filter (selects caseOrbit query) todo) in
  ∃ tmp', foldM (doSearch_step caseOrbit ci query
                   (bool_decide (query = "_dump"))) (tmp, length out)
                (seq (length seen) (length todo)) = Ret (tmp', length out')
          ∧ length tmp' = length tmp
          ∧ take (length out') tmp' = out'.
Proof.
  revert seen tmp out.
  induction todo as [|key todo IH]; intros seen tmp out Hkeys Hlen Htake Hout.
  - simpl. rewrite app_nil_r. by exists tmp.
  - assert (indexKeys ci !! length seen = Some key) as Hk
      by (rewrite Hkeys; apply list_lookup_middle; done).
    assert (length out < length tmp) as Hi.
    { rewrite Hlen, Hkeys, length_app. simpl. lia. }
    assert (length (seen ++ [key]) = S (length seen)) as Hseen
      by (rewrite length_app; simpl; lia).
    cbn [length seq foldM]. rewrite (doSearch_step_eq _ _ _ _ Hk Hi).
    cbn [List.filter].
    destruct (selects caseOrbit query key); cbn [mbind outcome_bind].
    + set (g := group (indexMap ci) key).
      assert (length (out ++ [g]) = S (length out)) as Hout'
        by (rewrite length_app; simpl; lia).
      destruct (IH (seen ++ [key]) (<[length out := g]> tmp) (out ++ [g]))
        as (tmp' & Hrun & Hlen' & Htake').
      * by rewrite <- app_assoc.
      * by rewrite length_insert.
      * rewrite Hout'.
        erewrite take_S_r by (by apply list_lookup_insert_eq).
        rewrite take_insert_ge by lia. by rewrite Htake.
      * lia.
      * rewrite Hseen, Hout' in Hrun. rewrite length_insert in Hlen'.
        rewrite fmap_cons. fold g.
        replace (out ++ g :: (group (indexMap ci)
                   <$> List.filter (selects caseOrbit query) todo))
          with ((out ++ [g]) ++ (group (indexMap ci)
                   <$> List.filter (selects caseOrbit query) todo))
          by (by rewrite <- app_assoc).
        by exists tmp'.
    + destruct (IH (seen ++ [key]) tmp out) as (tmp' & Hrun & Hlen' & Htake').
      * by rewrite <- app_assoc.
      * done.
      * done.
      * lia.
      * rewrite Hseen in Hrun. by exists tmp'.
Qed.

(** [doSearch] never panics: it returns the groups of the selected keys,
    in the order of the keys of the index. *)
Lemma doSearch_eq :
  doSearch caseOrbit ci query
  = Ret (group (indexMap ci)
           <$> List.filter (selects caseOrbit query) (indexKeys ci)).
Proof.
  unfold doSearch.
  destruct (doSearch_loop (indexKeys ci) [] (replicate (length (indexKeys ci)) []) [])
    as (tmp' & Hrun & Hlen & Htake); [done|by rewrite length_replicate|done|done|].
  simpl in Hrun, Htake. rewrite Hrun. simpl.
  rewrite slice_upto_le.
  - by rewrite Htake.
  - rewrite Hlen, length_replicate, length_fmap. apply filter_length_le.
Qed.

End DoSearch.

(** ** The maps of the groups *)

Section GroupBy.

Context {E : Type}.
Variable key : E → string.

Lemma groupBy_snoc m0 es c :
  groupBy key m0 (es ++ [c]) = addTo (groupBy key m0 es) (key c) c.
Proof. unfold groupBy. by rewrite foldl_app. Qed.

Lemma group_addTo (m : gmap string (list E)) k c k' :
  group (addTo m k c) k'
  = if decide (k = k') then group m k ++ [c] else group m k'.
Proof.
  unfold group at 1, addTo. rewrite lookup_insert.
  destruct (decide (k = k')) as [->|]; done.
Qed.

(** The group of a key holds the entities of that key, in the order in
    which they were loaded. *)
Lemma group_groupBy es k :
  group (groupBy key ∅ es) k
  = List.filter (λ c, bool_decide (key c = k)) es.
Proof.
  induction es as [|c es IH] using rev_ind.
  - unfold group, groupBy. simpl. by rewrite lookup_empty.
  - rewrite groupBy_snoc, group_addTo, List.filter_app. simpl.
    destruct (decide (key c = k)) as [->|Hne].
    + rewrite bool_decide_true by done. by rewrite IH.
    + rewrite bool_decide_false by done. by rewrite IH, app_nil_r.
Qed.

Lemma dom_groupBy es :
  dom (groupBy key ∅ es) = (list_to_set (key <$> es) : gset string).
Proof.
  induction es as [|c es IH] using rev_ind.
  - unfold groupBy. simpl. by rewrite dom_empty_L.
  - rewrite groupBy_snoc. unfold addTo. rewrite dom_insert_L, IH.
    rewrite fmap_app, list_to_set_app_L, (comm_L (∪)). simpl.
    by rewrite union_empty_r_L.
Qed.

(** The keys of the map are the keys of the entities. *)
Lemma lookup_groupBy_is_Some es k :
  is_Some (groupBy key ∅ es !! k) ↔ k ∈ key <$> es.
Proof.
  rewrite <- elem_of_dom, dom_groupBy. apply elem_of_list_to_set.
Qed.

(** The size of the map is the number of distinct keys of the entities. *)
Lemma size_groupBy es :
  size (groupBy key ∅ es) = length (remove_dups (key <$> es)).
Proof.
  rewrite <- size_dom, dom_groupBy.
  rewrite <- (size_list_to_set (C := gset string) (remove_dups (key <$> es)))
    by apply NoDup_remove_dups.
  f_equal. apply set_eq. intros k.
  by rewrite !elem_of_list_to_set, elem_of_remove_dups.
Qed.

Lemma size_groupBy_le es : size (groupBy key ∅ es) ≤ length es.
Proof.
  rewrite size_groupBy, <- (length_fmap key es).
  generalize (key <$> es). intros l.
  induction l as [|k l IH]; simpl; [done|].
  destruct (decide_rel elem_of k l); simpl; lia.
Qed.

End GroupBy.

(** ** The stream *)

Lemma csvRead_line_ok n line ln :
  lineOK n ln = true → csvRead_line n line ln = (fieldsOf ln, None).
Proof.
  destruct ln as [fs|msg]; simpl; [|done].
  intros Hn%bool_decide_eq_true. by rewrite decide_True.
Qed.

Lemma csvRead_line_bad n line ln :
  lineOK n ln = false →
  ∃ fs msg, csvRead_line n line ln = (fs, Some (ReadFailure msg)).
Proof.
  destruct ln as [fs|msg]; simpl; [|by eauto].
  intros Hn%bool_decide_eq_false. rewrite decide_False by done. by eauto.
Qed.

(** A stream that is not read to its end has a first line that fails. *)
Lemma streamOK_false n rd :
  streamOK n rd = false →
  ∃ good bad rest,
    rd = good ++ bad :: rest ∧ streamOK n good = true ∧ lineOK n bad = false.
Proof.
  induction rd as [|ln rd IH]; simpl; [done|].
  destruct (lineOK n ln) eqn:Hln; simpl.
  - intros (good & bad & rest & -> & Hgood & Hbad)%IH.
    exists (ln :: good), bad, rest. simpl. by rewrite Hln, Hgood.
  - intros _. by exists [], ln, rd.
Qed.

Lemma streamOK_app n rd1 rd2 :
  streamOK n (rd1 ++ rd2) = streamOK n rd1 && streamOK n rd2.
Proof. apply forallb_app. Qed.

(** ** [Load] of the country provider *)

Lemma country_fields (fs : list string) :
  length fs = 4 →
  ∃ r0 r1 r2 r3, fs = [r0; r1; r2; r3].
Proof.
  destruct fs as [|r0 [|r1 [|r2 [|r3 [|]]]]]; try done. by eauto.
Qed.

(** The loop of [Load] on a stream read to its end: every record is added
    to the four maps, and no turn panics. *)
Lemma country_Load_loop_ok unread line rd g :
  streamOK 4 rd = true →
  country.Load_loop unread line rd g
  = Ret (country.mkGlobals
           (groupBy country.EnglishName (country.englishNameMap g) (countryOf <$> rd))
           (groupBy country.Alpha2Code (country.alpha2Map g) (countryOf <$> rd))
           (groupBy country.Alpha3Code (country.alpha3Map g) (countryOf <$> rd))
           (groupBy country.NumericCode (country.numericMap g) (countryOf <$> rd))
           [], None).
Proof.
  revert line g. induction rd as [|ln rd IH]; intros line g; simpl; [done|].
  intros [Hln Hrd]%andb_prop.
  rewrite (csvRead_line_ok _ _ _ Hln).
  destruct ln as [fs|]; [|done]. simpl in Hln.
  apply bool_decide_eq_true in Hln.
  destruct (country_fields fs Hln) as (r0 & r1 & r2 & r3 & ->). simpl.
  by rewrite IH.
Qed.

(** The loop of [Load] on a stream with a line that fails: it ends at the
    first such line with an error of status 503. *)
Lemma country_Load_loop_bad unread line good bad rest g :
  streamOK 4 good = true → lineOK 4 bad = false →
  ∃ msg,
    country.Load_loop unread line (good ++ bad :: rest) g
    = Ret (country.mkGlobals
             (groupBy country.EnglishName (country.englishNameMap g) (countryOf <$> good))
             (groupBy country.Alpha2Code (country.alpha2Map g) (countryOf <$> good))
             (groupBy country.Alpha3Code (country.alpha3Map g) (countryOf <$> good))
             (groupBy country.NumericCode (country.numericMap g) (countryOf <$> good))
             unread,
           Some (ServiceError msg StatusServiceUnavailable)).
Proof.
  intros Hgood Hbad. revert line g Hgood.
  induction good as [|ln good IH]; intros line g; simpl.
  - intros _. destruct (csvRead_line_bad _ (S line) _ Hbad) as (fs & msg & ->).
    by exists msg.
  - intros [Hln Hrd]%andb_prop.
    rewrite (csvRead_line_ok _ _ _ Hln).
    destruct ln as [fs|]; [|done]. simpl in Hln.
    apply bool_decide_eq_true in Hln.
    destruct (country_fields fs Hln) as (r0 & r1 & r2 & r3 & ->). simpl.
    by apply IH.
Qed.

(** One turn of the loop is one [reader.Read()] on the reader. *)
Lemma country_Load_loop_Read unread line rd g :
  country.Load_loop unread line rd g
  = let '(record, err, r) := csvRead 4 (line, rd) in
    let left rd' :=
      country.mkGlobals (country.englishNameMap g) (country.alpha2Map g)
        (country.alpha3Map g) (country.numericMap g) rd' in
    match err with
    | Some EOF => Ret (left [], None)
    | Some e =>
      Ret (left unread,
           Some (ServiceError (readError_Error e) StatusServiceUnavailable))
    | None =>
      r0 ← slice_get record 0;
      r1 ← slice_get record 1;
      r2 ← slice_get record 2;
      r3 ← slice_get record 3;
      let c := country.mkCountry r0 r1 r2 r3 in
      country.Load_loop unread r.1 r.2
        (country.mkGlobals
           (addTo (country.englishNameMap g) (country.EnglishName c) c)
           (addTo (country.alpha2Map g) (country.Alpha2Code c) c)
           (addTo (country.alpha3Map g) (country.Alpha3Code c) c)
           (addTo (country.numericMap g) (country.NumericCode c) c)
           (country.countrydata g))
    end.
Proof.
  destruct rd as [|ln rd]; [done|]. simpl.
  destruct ln as [fs|msg]; simpl; [|done]. by destruct (decide (length fs = 4)).
Qed.

Section CountryLoad.

Variable rangeKeys : gmap string (list country.Country) → list string.
Hypothesis rangeKeys_ok : range_ok rangeKeys.
Variable unread : list csvLine.

(** [Load] on a stream read to its end. *)
Lemma country_Load_ok p0 g0 :
  streamOK 4 (country.countrydata g0) = true →
  let cs := countryOf <$> country.countrydata g0 in
  let n := size (groupBy country.EnglishName ∅ cs) in
  country.Load rangeKeys unread p0 g0
  = Ret (mkProvider true n (Some (countryIndexesOf rangeKeys cs)),
         country.mkGlobals (groupBy country.EnglishName ∅ cs)
           (groupBy country.Alpha2Code ∅ cs)
           (groupBy country.Alpha3Code ∅ cs)
           (groupBy country.NumericCode ∅ cs) [],
         (n, None)).
Proof.
  intros Hok. unfold country.Load.
  rewrite (country_Load_loop_ok _ _ _ _ Hok). simpl.
  repeat (erewrite storeData_eq by (done || reflexivity); simpl).
  done.
Qed.

(** [Load] on a stream with a line that fails. *)
Lemma country_Load_bad p0 g0 :
  streamOK 4 (country.countrydata g0) = false →
  ∃ msg g,
    country.Load rangeKeys unread p0 g0
    = Ret (mkProvider (loaded p0) (psize p0) (Some ∅), g,
           (0, Some (ServiceError msg StatusServiceUnavailable))).
Proof.
  intros (good & bad & rest & Hrd & Hgood & Hbad)%streamOK_false.
  unfold country.Load. rewrite Hrd.
  destruct (country_Load_loop_bad unread 0 good bad rest
              (country.mkGlobals ∅ ∅ ∅ ∅ (good ++ bad :: rest)) Hgood Hbad)
    as [msg ->].
  simpl. by eauto.
Qed.

(** [Load] never panics. *)
Lemma country_Load_returns p0 g0 : returns (country.Load rangeKeys unread p0 g0).
Proof.
  destruct (streamOK 4 (country.countrydata g0)) eqn:Hok.
  - rewrite (country_Load_ok _ _ Hok). by eexists.
  - destruct (country_Load_bad p0 g0 Hok) as (msg & g & ->). by eexists.
Qed.

(** What a [Load] that returns no error has read and built. *)
Lemma country_Load_inv p0 g0 p g n :
  country.Load rangeKeys unread p0 g0 = Ret (p, g, (n, None)) →
  let cs := countryOf <$> country.countrydata g0 in
  streamOK 4 (country.countrydata g0) = true
  ∧ n = size (groupBy country.EnglishName ∅ cs)
  ∧ p = mkProvider true n (Some (countryIndexesOf rangeKeys cs)).
Proof.
  intros Hload. destruct (streamOK 4 (country.countrydata g0)) eqn:Hok.
  - rewrite (country_Load_ok _ _ Hok) in Hload. by simplify_eq.
  - destruct (country_Load_bad p0 g0 Hok) as (msg & g' & Hbad).
    rewrite Hbad in Hload. by simplify_eq.
Qed.

(** The four indexes of a loaded provider, and the group of a key: the
    entities of that key in the order of the stream. *)
Lemma country_Load_indexes p0 g0 p g n :
  country.Load rangeKeys unread p0 g0 = Ret (p, g, (n, None)) →
  let cs := countryOf <$> country.countrydata g0 in
  indexNamed p "name" = Some (indexOf rangeKeys (groupBy country.EnglishName ∅ cs))
  ∧ indexNamed p "alpha2" = Some (indexOf rangeKeys (groupBy country.Alpha2Code ∅ cs))
  ∧ indexNamed p "alpha3" = Some (indexOf rangeKeys (groupBy country.Alpha3Code ∅ cs))
  ∧ indexNamed p "number" = Some (indexOf rangeKeys (groupBy country.NumericCode ∅ cs))
  ∧ ∀ k, group (groupBy country.Alpha2Code ∅ cs) k
         = List.filter (λ c, bool_decide (country.Alpha2Code c = k)) cs.
Proof.
  intros (_ & _ & ->)%country_Load_inv. simpl.
  repeat split; try done. intros k. apply group_groupBy.
Qed.

End CountryLoad.

(** ** [Load] of the language provider *)

Lemma language_fields (fs : list string) :
  length fs = 5 →
  ∃ r0 r1 r2 r3 r4, fs = [r0; r1; r2; r3; r4].
Proof.
  destruct fs as [|r0 [|r1 [|r2 [|r3 [|r4 [|]]]]]]; try done. by eauto 6.
Qed.

Lemma language_Load_loop_ok line rd g :
  streamOK 5 rd = true →
  language.Load_loop line rd g
  = Ret (language.mkGlobals
           (groupBy language.Alpha3bibliographic (language.alphaMap g)
                    (languageOf <$> rd))
           (groupBy language.EnglishName (language.englishNameMap g)
                    (languageOf <$> rd)),
         None).
Proof.
  revert line g. induction rd as [|ln rd IH]; intros line g; simpl.
  - by destruct g.
  - intros [Hln Hrd]%andb_prop.
    rewrite (csvRead_line_ok _ _ _ Hln).
    destruct ln as [fs|]; [|done]. simpl in Hln.
    apply bool_decide_eq_true in Hln.
    destruct (language_fields fs Hln) as (r0 & r1 & r2 & r3 & r4 & ->). simpl.
    by rewrite IH.
Qed.

Lemma language_Load_loop_bad line good bad rest g :
  streamOK 5 good = true → lineOK 5 bad = false →
  ∃ msg g',
    language.Load_loop line (good ++ bad :: rest) g
    = Ret (g', Some (ServiceError msg StatusServiceUnavailable)).
Proof.
  intros Hgood Hbad. revert line g Hgood.
  induction good as [|ln good IH]; intros line g; simpl.
  - intros _. destruct (csvRead_line_bad _ (S line) _ Hbad) as (fs & msg & ->).
    by exists msg, g.
  - intros [Hln Hrd]%andb_prop.
    rewrite (csvRead_line_ok _ _ _ Hln).
    destruct ln as [fs|]; [|done]. simpl in Hln.
    apply bool_decide_eq_true in Hln.
    destruct (language_fields fs Hln) as (r0 & r1 & r2 & r3 & r4 & ->). simpl.
    by apply IH.
Qed.

Section LanguageLoad.

Variable rangeKeys : gmap string (list language.Language) → list string.
Hypothesis rangeKeys_ok : range_ok rangeKeys.

(** [Load] when [http.Get] answers and the body is read to its end. *)
Lemma language_Load_ok body p0 g0 :
  streamOK 5 body = true →
  let ls := languageOf <$> body in
  let n := size (groupBy language.Alpha3bibliographic ∅ ls) in
  language.Load rangeKeys (inr body) p0 g0
  = Ret (mkProvider true n (Some (languageIndexesOf rangeKeys ls)),
         language.mkGlobals (groupBy language.Alpha3bibliographic ∅ ls)
           (groupBy language.EnglishName ∅ ls),
         (n, None)).
Proof.
  intros Hok. unfold language.Load.
  rewrite (language_Load_loop_ok _ _ _ Hok). simpl.
  repeat (erewrite storeData_eq by (done || reflexivity); simpl).
  done.
Qed.

(** [Load] when [http.Get] fails, or a line of the body fails. *)
Lemma language_Load_bad get p0 g0 :
  match get with inl _ => True | inr body => streamOK 5 body = false end →
  ∃ msg g,
    language.Load rangeKeys get p0 g0
    = Ret (mkProvider (loaded p0) (psize p0) (Some ∅), g,
           (0, Some (ServiceError msg StatusServiceUnavailable))).
Proof.
  destruct get as [msg|body]; simpl.
  - intros _. by eauto.
  - intros (good & bad & rest & -> & Hgood & Hbad)%streamOK_false.
    destruct (language_Load_loop_bad 0 good bad rest (language.mkGlobals ∅ ∅)
                Hgood Hbad) as (msg & g' & ->).
    simpl. by eauto.
Qed.

(** [Load] never panics. *)
Lemma language_Load_returns get p0 g0 :
  returns (language.Load rangeKeys get p0 g0).
Proof.
  destruct get as [msg|body]; [by eexists|].
  destruct (streamOK 5 body) eqn:Hok.
  - rewrite (language_Load_ok _ _ _ Hok). by eexists.
  - destruct (language_Load_bad (inr body) p0 g0 Hok) as (msg & g & ->).
    by eexists.
Qed.

(** What a [Load] that returns no error has read and built. *)
Lemma language_Load_inv get p0 g0 p g n :
  language.Load rangeKeys get p0 g0 = Ret (p, g, (n, None)) →
  ∃ body,
    get = inr body
    ∧ streamOK 5 body = true
    ∧ n = size (groupBy language.Alpha3bibliographic ∅ (languageOf <$> body))
    ∧ p = mkProvider true n
            (Some (languageIndexesOf rangeKeys (languageOf <$> body))).
Proof.
  intros Hload. destruct get as [msg|body]; [done|].
  exists body. destruct (streamOK 5 body) eqn:Hok.
  - rewrite (language_Load_ok _ _ _ Hok) in Hload. by simplify_eq.
  - destruct (language_Load_bad (inr body) p0 g0 Hok) as (msg & g' & Hbad).
    rewrite Hbad in Hload. by simplify_eq.
Qed.

End LanguageLoad.

(** ** [Search] on a loaded provider *)

Lemma StronglySorted_filter {A : Type} (R : relation A) (f : A → bool) l :
  StronglySorted R l → StronglySorted R (List.filter f l).
Proof.
  induction 1 as [|x l Hl IH Hx]; simpl; [constructor|].
  destruct (f x); [|done]. constructor; [done|].
  rewrite Forall_forall in *. intros y Hy.
  apply Hx. apply list_elem_of_In. apply list_elem_of_In in Hy.
  apply filter_In in Hy. tauto.
Qed.

Lemma builtIndexes_empty {E : Type} (rangeKeys : gmap string (list E) → list string) :
  builtIndexes rangeKeys ∅.
Proof. intros s ci Hs. by rewrite lookup_empty in Hs. Qed.

Lemma builtIndexes_insert {E : Type}
    (rangeKeys : gmap string (list E) → list string) idx s m :
  builtIndexes rangeKeys idx →
  builtIndexes rangeKeys (<[s := indexOf rangeKeys m]> idx).
Proof.
  intros Hidx s' ci. rewrite lookup_insert. case_decide.
  - intros [= <-]. by exists m.
  - apply Hidx.
Qed.

Lemma countryIndexesOf_built rangeKeys cs :
  builtIndexes rangeKeys (countryIndexesOf rangeKeys cs).
Proof.
  unfold countryIndexesOf.
  repeat apply builtIndexes_insert. apply builtIndexes_empty.
Qed.

Lemma languageIndexesOf_built rangeKeys ls :
  builtIndexes rangeKeys (languageIndexesOf rangeKeys ls).
Proof.
  unfold languageIndexesOf.
  repeat apply builtIndexes_insert. apply builtIndexes_empty.
Qed.

Section SearchLoaded.

Context {E : Type}.
Variable rangeKeys : gmap string (list E) → list string.
Hypothesis rangeKeys_ok : range_ok rangeKeys.
Variable caseOrbit : Z → Z → bool.

(** The search of an index that [storeData] has stored: the groups of the
    selected keys of the map, each key once, in strictly ascending
    order. *)
Lemma doSearch_indexOf (m : gmap string (list E)) query :
  ∃ ks,
    doSearch caseOrbit (indexOf rangeKeys m) query = Ret (group m <$> ks)
    ∧ StronglySorted str_lt ks
    ∧ ∀ k, k ∈ ks ↔ is_Some (m !! k) ∧ selects caseOrbit query k = true.
Proof.
  exists (List.filter (selects caseOrbit query) (sort_Strings (rangeKeys m))).
  destruct (sorted_keys_spec rangeKeys rangeKeys_ok m) as [Hsorted Hkeys].
  split; [apply doSearch_eq|]. split.
  - by apply StronglySorted_filter.
  - intros k. rewrite list_elem_of_In, filter_In, <- list_elem_of_In.
    by rewrite Hkeys.
Qed.

End SearchLoaded.

Lemma countryLoaded_inv rangeKeys p :
  range_ok rangeKeys → countryLoaded rangeKeys p →
  loaded p = true ∧ ∃ idx, indexes p = Some idx ∧ builtIndexes rangeKeys idx.
Proof.
  intros Hrk (unread & p0 & g0 & g & n & Hload).
  apply country_Load_inv in Hload as (_ & _ & ->); [|done].
  split; [done|]. eexists. split; [done|]. apply countryIndexesOf_built.
Qed.

Lemma languageLoaded_inv rangeKeys p :
  range_ok rangeKeys → languageLoaded rangeKeys p →
  loaded p = true ∧ ∃ idx, indexes p = Some idx ∧ builtIndexes rangeKeys idx.
Proof.
  intros Hrk (get & p0 & g0 & g & n & Hload).
  apply language_Load_inv in Hload as (body & _ & _ & _ & ->); [|done].
  split; [done|]. eexists. split; [done|]. apply languageIndexesOf_built.
Qed.

(** On a loaded provider and an index it has, both [Search] functions
    return what [doSearch] returns. *)
Lemma country_Search_loaded caseOrbit (p : Provider country.Country) index ci query :
  loaded p = true → indexNamed p index = Some ci →
  country.Search caseOrbit p index query
  = (result ← doSearch caseOrbit ci query; Ret (Some result, None)).
Proof. intros Hl Hci. unfold country.Search. by rewrite Hl, Hci. Qed.

Lemma language_Search_loaded caseOrbit (p : Provider language.Language) index li query :
  loaded p = true → indexNamed p index = Some li →
  language.Search caseOrbit p index query
  = (result ← doSearch caseOrbit li query; Ret (Some result, None)).
Proof. intros Hl Hci. unfold language.Search. by rewrite Hl, Hci. Qed.

Lemma indexNamed_built {E : Type} rangeKeys (p : Provider E) idx index ci :
  indexes p = Some idx → builtIndexes rangeKeys idx →
  indexNamed p index = Some ci → ∃ m, ci = indexOf rangeKeys m.
Proof.
  intros Hidx Hbuilt. unfold indexNamed. rewrite Hidx. simpl. apply Hbuilt.
Qed.

(** ** The samples *)

Lemma rangeAscending_ok {E : Type} : range_ok (@rangeAscending E).
Proof. by intros m. Qed.

Lemma rangeDescending_ok {E : Type} : range_ok (@rangeDescending E).
Proof. intros m. unfold rangeDescending. by rewrite reverse_Permutation. Qed.

Lemma sampleCountries_loaded : countryLoaded rangeAscending sampleCountries.
Proof.
  exists [], zeroProvider, sampleGlobals. eexists _, _. vm_compute. reflexivity.
Qed.

Lemma sampleLanguages_loaded : languageLoaded rangeAscending sampleLanguages.
Proof.
  exists (inr sampleBody), zeroProvider, (language.mkGlobals ∅ ∅).
  eexists _, _. vm_compute. reflexivity.
Qed.

(** ** The sorted keys of an index *)

(** C7. For every mapping [m] passed to [storeData] (on a provider whose map
    of indexes has been made, as [Load] does before it calls [storeData]),
    the key sequence stored with [m] under the index name holds each key of
    [m] exactly once, holds no other key, and is sorted in ascending
    byte-wise order. *)
Theorem storeData_sorted_keys {E : Type}
    (rangeKeys : gmap string (list E) → list string) (s : string)
    (m : gmap string (list E)) (p : Provider E) (idx : gmap string (Index E)) :
  range_ok rangeKeys →
  indexes p = Some idx →
  ∃ p' ci,
    storeData rangeKeys s m p = Ret p'
    ∧ indexNamed p' s = Some ci
    ∧ indexMap ci = m
    ∧ NoDup (indexKeys ci)
    ∧ (∀ k, k ∈ indexKeys ci ↔ is_Some (m !! k))
    ∧ StronglySorted str_le (indexKeys ci).
Proof.
  intros Hrk Hidx.
  exists (mkProvider (loaded p) (psize p)
            (Some (<[s := indexOf rangeKeys m]> idx))), (indexOf rangeKeys m).
  destruct (sorted_keys_spec rangeKeys Hrk m) as [Hsorted Hkeys].
  split; [by apply storeData_eq|].
  split; [unfold indexNamed; simpl; by rewrite lookup_insert_eq|].
  split; [done|]. split; [by apply StronglySorted_lt_NoDup|].
  split; [done|]. apply sort_Strings_StronglySorted.
Qed.

Lemma storeData_sorted_keys_witness :
  ∃ p' ci,
    storeData rangeDescending "alpha2"
      (groupBy country.Alpha2Code ∅ (countryOf <$> sampleStream))
      (mkProvider false 0 (Some ∅)) = Ret p'
    ∧ indexNamed p' "alpha2" = Some ci
    ∧ indexMap ci = groupBy country.Alpha2Code ∅ (countryOf <$> sampleStream)
    ∧ NoDup (indexKeys ci)
    ∧ (∀ k, k ∈ indexKeys ci
            ↔ is_Some (groupBy country.Alpha2Code ∅ (countryOf <$> sampleStream) !! k))
    ∧ StronglySorted str_le (indexKeys ci).
Proof.
  apply (storeData_sorted_keys rangeDescending "alpha2" _ _ ∅).
  - apply rangeDescending_ok.
  - reflexivity.
Defined.

Example storeData_sample :
  storeData rangeDescending "alpha2"
    (groupBy country.Alpha2Code ∅ (countryOf <$> sampleStream))
    (mkProvider false 0 (Some ∅))
  ≫= (λ p', Ret (indexKeys <$> indexNamed p' "alpha2"))
  = Ret (Some ["AF"; "AL"; "AX"]).
Proof. vm_compute. reflexivity. Qed.

(** ** The keys a query selects *)

Lemma selects_dump caseOrbit k : selects caseOrbit "_dump" k = true.
Proof. done. Qed.

Lemma selects_prefix caseOrbit query k :
  query ≠ "_dump" →
  selects caseOrbit query k = true
  ↔ String.length query ≤ String.length k
    ∧ EqualFold caseOrbit query (substring 0 (String.length query) k) = true.
Proof.
  intros Hq. unfold selects, foldsToPrefix.
  rewrite bool_decide_false by done.
  by rewrite andb_true_iff, bool_decide_eq_true.
Qed.

(** The empty query folds to the empty prefix of every key. *)
Lemma selects_empty caseOrbit k : selects caseOrbit EmptyString k = true.
Proof.
  unfold selects, foldsToPrefix.
  rewrite bool_decide_false by done.
  rewrite bool_decide_true by (simpl; lia). by destruct k.
Qed.

(** The result of [Search] on a provider that [Load] has built, for an
    index it has. *)
Lemma Search_result {E : Type} rangeKeys caseOrbit (p : Provider E) index ci query :
  range_ok rangeKeys →
  (∃ idx, indexes p = Some idx ∧ builtIndexes rangeKeys idx) →
  indexNamed p index = Some ci →
  ∃ ks,
    (result ← doSearch caseOrbit ci query; Ret (Some result, @None error))
    = Ret (Some (group (indexMap ci) <$> ks), None)
    ∧ StronglySorted str_lt ks
    ∧ ∀ k, k ∈ ks ↔ is_Some (indexMap ci !! k) ∧ selects caseOrbit query k = true.
Proof.
  intros Hrk (idx & Hidx & Hbuilt) Hci.
  destruct (indexNamed_built _ _ _ _ _ Hidx Hbuilt Hci) as [m ->].
  destruct (doSearch_indexOf rangeKeys Hrk caseOrbit m query)
    as (ks & Hrun & Hsorted & Hks).
  exists ks. rewrite Hrun. done.
Qed.

(** ** The prefix search *)

(** C1. On a loaded provider, for an index it has and a query other than
    ["_dump"], [Search] returns without error the groups of the keys [ks]
    where [ks] is in strictly ascending byte-wise order (so each key occurs
    once) and holds exactly the keys [k] of the index with
    [len(query) <= len(k)] whose first [len(query)] bytes fold to the query
    under [strings.EqualFold]. Lengths and the prefix are counted in bytes,
    as [len] and the slice expression of [doSearch] count them. *)
Theorem Search_prefix (caseOrbit : Z → Z → bool) (query : string) :
  query ≠ "_dump" →
  (∀ rangeKeys p index ci,
     range_ok rangeKeys → countryLoaded rangeKeys p →
     indexNamed p index = Some ci →
     ∃ ks,
       returnsGroups (country.Search caseOrbit p index query) ci ks
       ∧ StronglySorted str_lt ks
       ∧ ∀ k, k ∈ ks
              ↔ is_Some (indexMap ci !! k)
                ∧ String.length query ≤ String.length k
                ∧ EqualFold caseOrbit query
                    (substring 0 (String.length query) k) = true)
  ∧ (∀ rangeKeys p index li,
       range_ok rangeKeys → languageLoaded rangeKeys p →
       indexNamed p index = Some li →
       ∃ ks,
         returnsGroups (language.Search caseOrbit p index query) li ks
         ∧ StronglySorted str_lt ks
         ∧ ∀ k, k ∈ ks
                ↔ is_Some (indexMap li !! k)
                  ∧ String.length query ≤ String.length k
                  ∧ EqualFold caseOrbit query
                      (substring 0 (String.length query) k) = true).
Proof.
  intros Hq. split.
  - intros rangeKeys p index ci Hrk Hp Hci.
    destruct (countryLoaded_inv _ _ Hrk Hp) as [Hl Hidx].
    destruct (Search_result rangeKeys caseOrbit p index ci query Hrk Hidx Hci)
      as (ks & Hrun & Hsorted & Hks).
    exists ks. unfold returnsGroups.
    rewrite (country_Search_loaded _ _ _ _ _ Hl Hci).
    split; [done|]. split; [done|].
    intros k. by rewrite Hks, selects_prefix.
  - intros rangeKeys p index li Hrk Hp Hli.
    destruct (languageLoaded_inv _ _ Hrk Hp) as [Hl Hidx].
    destruct (Search_result rangeKeys caseOrbit p index li query Hrk Hidx Hli)
      as (ks & Hrun & Hsorted & Hks).
    exists ks. unfold returnsGroups.
    rewrite (language_Search_loaded _ _ _ _ _ Hl Hli).
    split; [done|]. split; [done|].
    intros k. by rewrite Hks, selects_prefix.
Qed.

Lemma Search_prefix_witness :
  (let ci := indexOf rangeAscending
               (groupBy country.Alpha2Code ∅ (countryOf <$> sampleStream)) in
   ∃ ks,
     returnsGroups (country.Search latin1Orbit sampleCountries "alpha2" "a") ci ks
     ∧ StronglySorted str_lt ks
     ∧ ∀ k, k ∈ ks
            ↔ is_Some (indexMap ci !! k)
              ∧ String.length "a" ≤ String.length k
              ∧ EqualFold latin1Orbit "a" (substring 0 (String.length "a") k) = true)
  ∧ (let li := indexOf rangeAscending
                 (groupBy language.EnglishName ∅ (languageOf <$> sampleBody)) in
     ∃ ks,
       returnsGroups (language.Search latin1Orbit sampleLanguages "name" "a") li ks
       ∧ StronglySorted str_lt ks
       ∧ ∀ k, k ∈ ks
              ↔ is_Some (indexMap li !! k)
                ∧ String.length "a" ≤ String.length k
                ∧ EqualFold latin1Orbit "a" (substring 0 (String.length "a") k) = true).
Proof.
  split.
  - intros ci.
    apply (proj1 (Search_prefix latin1Orbit "a" ltac:(discriminate))
             rangeAscending sampleCountries "alpha2" ci).
    + apply rangeAscending_ok.
    + apply sampleCountries_loaded.
    + reflexivity.
  - intros li.
    apply (proj2 (Search_prefix latin1Orbit "a" ltac:(discriminate))
             rangeAscending sampleLanguages "name" li).
    + apply rangeAscending_ok.
    + apply sampleLanguages_loaded.
    + reflexivity.
Defined.

(** The searches of the example of the specification. *)
Example Search_prefix_sample :
  country.Search latin1Orbit sampleCountries "alpha2" "a"
  = Ret (Some [ [country.mkCountry "Afghanistan" "AF" "AFG" "004"];
                [country.mkCountry "Albania" "AL" "ALB" "008"];
                [country.mkCountry "Åland Islands" "AX" "ALA" "248"] ], None)
  ∧ country.Search latin1Orbit sampleCountries "alpha2" "AF"
    = Ret (Some [ [country.mkCountry "Afghanistan" "AF" "AFG" "004"] ], None)
  ∧ country.Search latin1Orbit sampleCountries "alpha2" "Z"
    = Ret (Some [], None).
Proof. vm_compute. done. Qed.

(** ** The dump *)

(** C2. On a loaded provider and for an index it has, [Search] with the
    query ["_dump"] returns without error the groups of the keys [ks] where
    [ks] is in strictly ascending byte-wise order and holds exactly the keys
    of the index: every group once, in the order of the keys. *)
Theorem Search_dump (caseOrbit : Z → Z → bool)
    (countryRange : gmap string (list country.Country) → list string)
    (languageRange : gmap string (list language.Language) → list string) :
  range_ok countryRange →
  range_ok languageRange →
  (∀ p index ci,
     countryLoaded countryRange p → indexNamed p index = Some ci →
     ∃ ks,
       returnsGroups (country.Search caseOrbit p index "_dump") ci ks
       ∧ StronglySorted str_lt ks
       ∧ ∀ k, k ∈ ks ↔ is_Some (indexMap ci !! k))
  ∧ (∀ p index li,
       languageLoaded languageRange p → indexNamed p index = Some li →
       ∃ ks,
         returnsGroups (language.Search caseOrbit p index "_dump") li ks
         ∧ StronglySorted str_lt ks
         ∧ ∀ k, k ∈ ks ↔ is_Some (indexMap li !! k)).
Proof.
  intros HrkC HrkL. split.
  - intros p index ci Hp Hci.
    destruct (countryLoaded_inv _ _ HrkC Hp) as [Hl Hidx].
    destruct (Search_result countryRange caseOrbit p index ci "_dump" HrkC Hidx Hci)
      as (ks & Hrun & Hsorted & Hks).
    exists ks. unfold returnsGroups.
    rewrite (country_Search_loaded _ _ _ _ _ Hl Hci).
    split; [done|]. split; [done|].
    intros k. rewrite Hks, selects_dump. tauto.
  - intros p index li Hp Hli.
    destruct (languageLoaded_inv _ _ HrkL Hp) as [Hl Hidx].
    destruct (Search_result languageRange caseOrbit p index li "_dump" HrkL Hidx Hli)
      as (ks & Hrun & Hsorted & Hks).
    exists ks. unfold returnsGroups.
    rewrite (language_Search_loaded _ _ _ _ _ Hl Hli).
    split; [done|]. split; [done|].
    intros k. rewrite Hks, selects_dump. tauto.
Qed.

Lemma Search_dump_witness :
  (let li := indexOf rangeAscending
               (groupBy language.EnglishName ∅ (languageOf <$> sampleBody)) in
   ∃ ks,
     returnsGroups (language.Search latin1Orbit sampleLanguages "name" "_dump") li ks
     ∧ StronglySorted str_lt ks
     ∧ ∀ k, k ∈ ks ↔ is_Some (indexMap li !! k))
  ∧ (let ci := indexOf rangeAscending
                 (groupBy country.Alpha3Code ∅ (countryOf <$> sampleStream)) in
     ∃ ks,
       returnsGroups (country.Search latin1Orbit sampleCountries "alpha3" "_dump") ci ks
       ∧ StronglySorted str_lt ks
       ∧ ∀ k, k ∈ ks ↔ is_Some (indexMap ci !! k)).
Proof.
  split.
  - intros li.
    apply (proj2 (Search_dump latin1Orbit rangeAscending rangeAscending
                    rangeAscending_ok rangeAscending_ok)
             sampleLanguages "name" li).
    + apply sampleLanguages_loaded.
    + reflexivity.
  - intros ci.
    apply (proj1 (Search_dump latin1Orbit rangeAscending rangeAscending
                    rangeAscending_ok rangeAscending_ok)
             sampleCountries "alpha3" ci).
    + apply sampleCountries_loaded.
    + reflexivity.
Defined.

(** The query is the dump only when it is equal to ["_dump"]: a prefix of
    it, a longer query and another case are prefix searches. *)
Example Search_dump_sample :
  country.Search latin1Orbit sampleCountries "alpha3" "_dump"
  = Ret (Some [ [country.mkCountry "Afghanistan" "AF" "AFG" "004"];
                [country.mkCountry "Åland Islands" "AX" "ALA" "248"];
                [country.mkCountry "Albania" "AL" "ALB" "008"] ], None)
  ∧ country.Search latin1Orbit sampleCountries "alpha3" "_dum" = Ret (Some [], None)
  ∧ country.Search latin1Orbit sampleCountries "alpha3" "_dumps" = Ret (Some [], None)
  ∧ country.Search latin1Orbit sampleCountries "alpha3" "_DUMP" = Ret (Some [], None).
Proof. vm_compute. done. Qed.

(** ** The empty query *)

Lemma doSearch_empty_query {E : Type} caseOrbit (ci : Index E) :
  doSearch caseOrbit ci EmptyString = doSearch caseOrbit ci "_dump".
Proof.
  rewrite !doSearch_eq. do 2 f_equal. apply filter_ext.
  intros k. by rewrite selects_empty, selects_dump.
Qed.

(** C8. On a loaded provider and for an index it has, [Search] with the
    empty query and [Search] with the query ["_dump"] return, without
    error, the same groups in the same order: those of all the keys of the
    index. *)
Theorem Search_empty_query (caseOrbit : Z → Z → bool)
    (countryRange : gmap string (list country.Country) → list string)
    (languageRange : gmap string (list language.Language) → list string) :
  range_ok countryRange →
  range_ok languageRange →
  (∀ p index ci,
     countryLoaded countryRange p → indexNamed p index = Some ci →
     ∃ ks,
       returnsGroups (country.Search caseOrbit p index EmptyString) ci ks
       ∧ returnsGroups (country.Search caseOrbit p index "_dump") ci ks
       ∧ ∀ k, k ∈ ks ↔ is_Some (indexMap ci !! k))
  ∧ (∀ p index li,
       languageLoaded languageRange p → indexNamed p index = Some li →
       ∃ ks,
         returnsGroups (language.Search caseOrbit p index EmptyString) li ks
         ∧ returnsGroups (language.Search caseOrbit p index "_dump") li ks
         ∧ ∀ k, k ∈ ks ↔ is_Some (indexMap li !! k)).
Proof.
  intros HrkC HrkL. split.
  - intros p index ci Hp Hci.
    destruct (countryLoaded_inv _ _ HrkC Hp) as [Hl Hidx].
    destruct (Search_result countryRange caseOrbit p index ci "_dump" HrkC Hidx Hci)
      as (ks & Hrun & Hsorted & Hks).
    exists ks. unfold returnsGroups.
    rewrite !(country_Search_loaded _ _ _ _ _ Hl Hci), doSearch_empty_query.
    split; [done|]. split; [done|].
    intros k. rewrite Hks, selects_dump. tauto.
  - intros p index li Hp Hli.
    destruct (languageLoaded_inv _ _ HrkL Hp) as [Hl Hidx].
    destruct (Search_result languageRange caseOrbit p index li "_dump" HrkL Hidx Hli)
      as (ks & Hrun & Hsorted & Hks).
    exists ks. unfold returnsGroups.
    rewrite !(language_Search_loaded _ _ _ _ _ Hl Hli), doSearch_empty_query.
    split; [done|]. split; [done|].
    intros k. rewrite Hks, selects_dump. tauto.
Qed.

Lemma Search_empty_query_witness :
  (let ci := indexOf rangeAscending
               (groupBy country.EnglishName ∅ (countryOf <$> sampleStream)) in
   ∃ ks,
     returnsGroups (country.Search latin1Orbit sampleCountries "name" EmptyString) ci ks
     ∧ returnsGroups (country.Search latin1Orbit sampleCountries "name" "_dump") ci ks
     ∧ ∀ k, k ∈ ks ↔ is_Some (indexMap ci !! k))
  ∧ (let li := indexOf rangeAscending
                 (groupBy language.Alpha3bibliographic ∅ (languageOf <$> sampleBody)) in
     ∃ ks,
       returnsGroups (language.Search latin1Orbit sampleLanguages "alpha" EmptyString) li ks
       ∧ returnsGroups (language.Search latin1Orbit sampleLanguages "alpha" "_dump") li ks
       ∧ ∀ k, k ∈ ks ↔ is_Some (indexMap li !! k)).
Proof.
  split.
  - intros ci.
    apply (proj1 (Search_empty_query latin1Orbit rangeAscending rangeAscending
                    rangeAscending_ok rangeAscending_ok)
             sampleCountries "name" ci).
    + apply sampleCountries_loaded.
    + reflexivity.
  - intros li.
    apply (proj2 (Search_empty_query latin1Orbit rangeAscending rangeAscending
                    rangeAscending_ok rangeAscending_ok)
             sampleLanguages "alpha" li).
    + apply sampleLanguages_loaded.
    + reflexivity.
Defined.

(** ** An index name that the provider does not have *)

Lemma countryIndexesOf_lookup_None rangeKeys cs index :
  index ∉ ["name"; "alpha2"; "alpha3"; "number"] →
  countryIndexesOf rangeKeys cs !! index = None.
Proof.
  rewrite !not_elem_of_cons. intros (? & ? & ? & ? & _).
  unfold countryIndexesOf. by rewrite !lookup_insert_ne, lookup_empty.
Qed.

Lemma languageIndexesOf_lookup_None rangeKeys ls index :
  index ∉ ["alpha"; "name"] →
  languageIndexesOf rangeKeys ls !! index = None.
Proof.
  rewrite !not_elem_of_cons. intros (? & ? & _).
  unfold languageIndexesOf. by rewrite !lookup_insert_ne, lookup_empty.
Qed.

(** C5. On a loaded provider, [Search] with an index name that is not one
    of the names under which [Load] stores an index returns the nil result
    and a [ServiceError] of status 400 ("bad request") whose message is
    ["No index on "] followed by the index name. *)
Theorem Search_unknown_index (caseOrbit : Z → Z → bool)
    (countryRange : gmap string (list country.Country) → list string)
    (languageRange : gmap string (list language.Language) → list string) :
  range_ok countryRange →
  range_ok languageRange →
  (∀ p index query,
     countryLoaded countryRange p →
     index ∉ ["name"; "alpha2"; "alpha3"; "number"] →
     country.Search caseOrbit p index query
     = Ret (None, Some (ServiceError ("No index on " +:+ index) StatusBadRequest)))
  ∧ (∀ p index query,
       languageLoaded languageRange p →
       index ∉ ["alpha"; "name"] →
       language.Search caseOrbit p index query
       = Ret (None, Some (ServiceError ("No index on " +:+ index) StatusBadRequest))).
Proof.
  intros HrkC HrkL. split.
  - intros p index query (unread & p0 & g0 & g & n & Hload) Hindex.
    apply country_Load_inv in Hload as (_ & _ & ->); [|done].
    unfold country.Search, indexNamed. simpl.
    by rewrite countryIndexesOf_lookup_None.
  - intros p index query (get & p0 & g0 & g & n & Hload) Hindex.
    apply language_Load_inv in Hload as (body & _ & _ & _ & ->); [|done].
    unfold language.Search, indexNamed. simpl.
    by rewrite languageIndexesOf_lookup_None.
Qed.

Lemma Search_unknown_index_witness :
  country.Search latin1Orbit sampleCountries "nonexistent" "x"
  = Ret (None, Some (ServiceError ("No index on " +:+ "nonexistent") StatusBadRequest))
  ∧ language.Search latin1Orbit sampleLanguages "alpha2" "en"
    = Ret (None, Some (ServiceError ("No index on " +:+ "alpha2") StatusBadRequest)).
Proof.
  split.
  - apply (proj1 (Search_unknown_index latin1Orbit rangeAscending rangeAscending
                    rangeAscending_ok rangeAscending_ok)
             sampleCountries "nonexistent" "x").
    + apply sampleCountries_loaded.
    + rewrite !not_elem_of_cons. repeat split; try discriminate.
      apply not_elem_of_nil.
  - apply (proj2 (Search_unknown_index latin1Orbit rangeAscending rangeAscending
                    rangeAscending_ok rangeAscending_ok)
             sampleLanguages "alpha2" "en").
    + apply sampleLanguages_loaded.
    + rewrite !not_elem_of_cons. repeat split; try discriminate.
      apply not_elem_of_nil.
Defined.

(** ** Determinism *)

Lemma indexOf_range {E : Type} (rangeKeys1 rangeKeys2 : gmap string (list E) → list string)
    (m : gmap string (list E)) :
  range_ok rangeKeys1 → range_ok rangeKeys2 →
  indexOf rangeKeys1 m = indexOf rangeKeys2 m.
Proof.
  intros H1 H2. unfold indexOf. f_equal. apply sort_Strings_perm.
  by rewrite (H1 m), (H2 m).
Qed.

(** C9. The result of [Search] is a function of the loaded data, the index
    name and the query: two providers loaded from the same stream answer
    every search alike, whatever the order in which [range] visited the
    maps in each [Load], and whatever the providers and the package
    variables held before. [Search] itself writes nothing: it is a function
    of the provider. *)
Theorem Search_deterministic (caseOrbit : Z → Z → bool)
    (countryRange1 countryRange2 : gmap string (list country.Country) → list string)
    (languageRange1 languageRange2 : gmap string (list language.Language) → list string) :
  range_ok countryRange1 → range_ok countryRange2 →
  range_ok languageRange1 → range_ok languageRange2 →
  (∀ unread p0 g0 p g n unread' p0' g0' p' g' n',
     country.countrydata g0 = country.countrydata g0' →
     country.Load countryRange1 unread p0 g0 = Ret (p, g, (n, None)) →
     country.Load countryRange2 unread' p0' g0' = Ret (p', g', (n', None)) →
     ∀ index query,
       country.Search caseOrbit p index query
       = country.Search caseOrbit p' index query)
  ∧ (∀ get p0 g0 p g n p0' g0' p' g' n',
       language.Load languageRange1 get p0 g0 = Ret (p, g, (n, None)) →
       language.Load languageRange2 get p0' g0' = Ret (p', g', (n', None)) →
       ∀ index query,
         language.Search caseOrbit p index query
         = language.Search caseOrbit p' index query).
Proof.
  intros HC1 HC2 HL1 HL2. split.
  - intros unread p0 g0 p g n unread' p0' g0' p' g' n' Hdata Hload Hload'
      index query.
    apply country_Load_inv in Hload as (_ & -> & ->); [|done].
    apply country_Load_inv in Hload' as (_ & -> & ->); [|done].
    rewrite <- Hdata. unfold countryIndexesOf.
    by rewrite !(indexOf_range countryRange1 countryRange2).
  - intros get p0 g0 p g n p0' g0' p' g' n' Hload Hload' index query.
    apply language_Load_inv in Hload as (body & -> & _ & -> & ->); [|done].
    apply language_Load_inv in Hload' as (body' & [= <-] & _ & -> & ->); [|done].
    unfold languageIndexesOf.
    by rewrite !(indexOf_range languageRange1 languageRange2).
Qed.

Lemma Search_deterministic_witness :
  country.Search latin1Orbit sampleCountries "name" "A"
  = country.Search latin1Orbit
      (mkProvider true 3
         (Some (countryIndexesOf rangeDescending (countryOf <$> sampleStream))))
      "name" "A"
  ∧ language.Search latin1Orbit sampleLanguages "name" "eng"
    = language.Search latin1Orbit
        (mkProvider true 4
           (Some (languageIndexesOf rangeDescending (languageOf <$> sampleBody))))
        "name" "eng".
Proof.
  split.
  - apply (proj1 (Search_deterministic latin1Orbit rangeAscending rangeDescending
                    rangeAscending rangeDescending
                    rangeAscending_ok rangeDescending_ok
                    rangeAscending_ok rangeDescending_ok)
             [] zeroProvider sampleGlobals sampleCountries sampleGlobalsLoaded 3
             [] sampleCountries sampleGlobals _ sampleGlobalsLoaded 3).
    + reflexivity.
    + vm_compute. reflexivity.
    + vm_compute. reflexivity.
  - apply (proj2 (Search_deterministic latin1Orbit rangeAscending rangeDescending
                    rangeAscending rangeDescending
                    rangeAscending_ok rangeDescending_ok
                    rangeAscending_ok rangeDescending_ok)
             (inr sampleBody)
             zeroProvider (language.mkGlobals ∅ ∅) sampleLanguages
             sampleLanguageGlobalsLoaded 4
             sampleLanguages sampleLanguageGlobalsLoaded _
             sampleLanguageGlobalsLoaded 4).
    + vm_compute. reflexivity.
    + vm_compute. reflexivity.
Defined.

(** ** A [Load] that fails *)

(** C6. When a line of the stream fails (or, for the language provider,
    [http.Get] fails), [Load] returns the count 0 and a [ServiceError] of
    status 503 ("service unavailable"); the provider is as ready as it was
    before (not ready, if it was not), it has no index under any name, and
    no [Search] on it returns a result. *)
Theorem Load_failure
    (countryRange : gmap string (list country.Country) → list string)
    (languageRange : gmap string (list language.Language) → list string) :
  (∀ unread p0 g0,
     streamOK 4 (country.countrydata g0) = false →
     ∃ msg p g,
       country.Load countryRange unread p0 g0
       = Ret (p, g, (0, Some (ServiceError msg StatusServiceUnavailable)))
       ∧ loaded p = loaded p0
       ∧ (∀ index, indexNamed p index = None)
       ∧ ∀ caseOrbit index query result err,
           country.Search caseOrbit p index query ≠ Ret (Some result, err))
  ∧ (∀ get p0 g0,
       match get with inl _ => True | inr body => streamOK 5 body = false end →
       ∃ msg p g,
         language.Load languageRange get p0 g0
         = Ret (p, g, (0, Some (ServiceError msg StatusServiceUnavailable)))
         ∧ loaded p = loaded p0
         ∧ (∀ index, indexNamed p index = None)
         ∧ ∀ caseOrbit index query result err,
             language.Search caseOrbit p index query ≠ Ret (Some result, err)).
Proof.
  split.
  - intros unread p0 g0 Hbad.
    destruct (country_Load_bad countryRange unread p0 g0 Hbad) as (msg & g & Hload).
    exists msg, (mkProvider (loaded p0) (psize p0) (Some ∅)), g.
    split; [done|]. split; [done|]. split; [done|].
    intros caseOrbit index query result err. unfold country.Search. simpl.
    by destruct (loaded p0).
  - intros get p0 g0 Hbad.
    destruct (language_Load_bad languageRange get p0 g0 Hbad) as (msg & g & Hload).
    exists msg, (mkProvider (loaded p0) (psize p0) (Some ∅)), g.
    split; [done|]. split; [done|]. split; [done|].
    intros caseOrbit index query result err. unfold language.Search. simpl.
    by destruct (loaded p0).
Qed.

Lemma Load_failure_witness :
  (∃ msg p g,
     country.Load rangeAscending [] zeroProvider (country.mkGlobals ∅ ∅ ∅ ∅ brokenStream)
     = Ret (p, g, (0, Some (ServiceError msg StatusServiceUnavailable)))
     ∧ loaded p = loaded (@zeroProvider country.Country)
     ∧ (∀ index, indexNamed p index = None)
     ∧ ∀ caseOrbit index query result err,
         country.Search caseOrbit p index query ≠ Ret (Some result, err))
  ∧ (∃ msg p g,
       language.Load rangeAscending (inr brokenBody) zeroProvider
         (language.mkGlobals ∅ ∅)
       = Ret (p, g, (0, Some (ServiceError msg StatusServiceUnavailable)))
       ∧ loaded p = loaded (@zeroProvider language.Language)
       ∧ (∀ index, indexNamed p index = None)
       ∧ ∀ caseOrbit index query result err,
           language.Search caseOrbit p index query ≠ Ret (Some result, err)).
Proof.
  split.
  - apply (proj1 (Load_failure rangeAscending rangeAscending)
             [] zeroProvider (country.mkGlobals ∅ ∅ ∅ ∅ brokenStream)).
    reflexivity.
  - apply (proj2 (Load_failure rangeAscending rangeAscending)
             (inr brokenBody) zeroProvider (language.mkGlobals ∅ ∅)).
    reflexivity.
Defined.

Example Load_failure_sample :
  country.Load rangeAscending [] zeroProvider (country.mkGlobals ∅ ∅ ∅ ∅ brokenStream)
  = Ret (mkProvider false 0 (Some ∅),
         country.mkGlobals
           {["Afghanistan" := [country.mkCountry "Afghanistan" "AF" "AFG" "004"]]}
           {["AF" := [country.mkCountry "Afghanistan" "AF" "AFG" "004"]]}
           {["AFG" := [country.mkCountry "Afghanistan" "AF" "AFG" "004"]]}
           {["004" := [country.mkCountry "Afghanistan" "AF" "AFG" "004"]]} [],
         (0, Some (ServiceError "record on line 2: wrong number of fields"
                     StatusServiceUnavailable))).
Proof. vm_compute. reflexivity. Qed.

(** Every [Load] that returns an error has met a line that fails, or a
    failure of [http.Get]. *)
Lemma country_Load_error_inv rangeKeys unread p0 g0 p g n e :
  range_ok rangeKeys →
  country.Load rangeKeys unread p0 g0 = Ret (p, g, (n, Some e)) →
  streamOK 4 (country.countrydata g0) = false.
Proof.
  intros Hrk Hload. destruct (streamOK 4 (country.countrydata g0)) eqn:Hok; [|done].
  by rewrite (country_Load_ok _ Hrk _ _ _ Hok) in Hload.
Qed.

(** ** The count of [Load] *)

(** C10. The count that a [Load] without error returns is the number of
    keys of the primary index (["name"], the English names, for the country
    provider; ["alpha"], the bibliographic alpha-3 codes, for the language
    provider): the number of distinct values of that attribute among the
    records of the stream, which is at most the number of records. *)
Theorem Load_count
    (countryRange : gmap string (list country.Country) → list string)
    (languageRange : gmap string (list language.Language) → list string) :
  range_ok countryRange →
  range_ok languageRange →
  (∀ unread p0 g0 p g n,
     country.Load countryRange unread p0 g0 = Ret (p, g, (n, None)) →
     ∃ ci,
       indexNamed p "name" = Some ci
       ∧ n = size (indexMap ci)
       ∧ n = length (indexKeys ci)
       ∧ n = length (remove_dups
                       (country.EnglishName <$> (countryOf <$> country.countrydata g0)))
       ∧ n ≤ length (country.countrydata g0))
  ∧ (∀ body p0 g0 p g n,
       language.Load languageRange (inr body) p0 g0 = Ret (p, g, (n, None)) →
       ∃ li,
         indexNamed p "alpha" = Some li
         ∧ n = size (indexMap li)
         ∧ n = length (indexKeys li)
         ∧ n = length (remove_dups
                         (language.Alpha3bibliographic <$> (languageOf <$> body)))
         ∧ n ≤ length body).
Proof.
  intros HrkC HrkL. split.
  - intros unread p0 g0 p g n Hload.
    apply country_Load_inv in Hload as (_ & -> & ->); [|done].
    eexists. split; [reflexivity|]. simpl.
    split; [done|]. split; [|split].
    + unfold sort_Strings. rewrite (Permutation_length (merge_sort_Permutation _ _)).
      by rewrite (rangeKeys_length _ HrkC).
    + apply size_groupBy.
    + etrans; [apply size_groupBy_le|]. by rewrite length_fmap.
  - intros body p0 g0 p g n Hload.
    apply language_Load_inv in Hload as (body' & [= <-] & _ & -> & ->); [|done].
    eexists. split; [reflexivity|]. simpl.
    split; [done|]. split; [|split].
    + unfold sort_Strings. rewrite (Permutation_length (merge_sort_Permutation _ _)).
      by rewrite (rangeKeys_length _ HrkL).
    + apply size_groupBy.
    + etrans; [apply size_groupBy_le|]. by rewrite length_fmap.
Qed.

Lemma Load_count_witness :
  (∃ ci,
     indexNamed
       (mkProvider true 1
          (Some (countryIndexesOf rangeAscending (countryOf <$> repeatedStream))))
       "name" = Some ci
     ∧ 1 = size (indexMap ci)
     ∧ 1 = length (indexKeys ci)
     ∧ 1 = length (remove_dups
                     (country.EnglishName <$> (countryOf <$> repeatedStream)))
     ∧ 1 ≤ length repeatedStream)
  ∧ (∃ li,
       indexNamed
         (mkProvider true 2
            (Some (languageIndexesOf rangeAscending (languageOf <$> repeatedBody))))
         "alpha" = Some li
       ∧ 2 = size (indexMap li)
       ∧ 2 = length (indexKeys li)
       ∧ 2 = length (remove_dups
                       (language.Alpha3bibliographic <$> (languageOf <$> repeatedBody)))
       ∧ 2 ≤ length repeatedBody).
Proof.
  split.
  - apply (proj1 (Load_count rangeAscending rangeAscending
                    rangeAscending_ok rangeAscending_ok)
             [] zeroProvider (country.mkGlobals ∅ ∅ ∅ ∅ repeatedStream) _
             (country.mkGlobals
                (groupBy country.EnglishName ∅ (countryOf <$> repeatedStream))
                (groupBy country.Alpha2Code ∅ (countryOf <$> repeatedStream))
                (groupBy country.Alpha3Code ∅ (countryOf <$> repeatedStream))
                (groupBy country.NumericCode ∅ (countryOf <$> repeatedStream)) [])
             1).
    vm_compute. reflexivity.
  - apply (proj2 (Load_count rangeAscending rangeAscending
                    rangeAscending_ok rangeAscending_ok)
             repeatedBody zeroProvider (language.mkGlobals ∅ ∅) _
             (language.mkGlobals
                (groupBy language.Alpha3bibliographic ∅ (languageOf <$> repeatedBody))
                (groupBy language.EnglishName ∅ (languageOf <$> repeatedBody)))
             2).
    vm_compute. reflexivity.
Defined.

(** Two records read, one key counted. *)
Example Load_count_sample :
  (p ← country.Load rangeAscending [] zeroProvider
         (country.mkGlobals ∅ ∅ ∅ ∅ repeatedStream);
   Ret (p.2, psize p.1.1))
  = Ret ((1, None), 1)
  ∧ length repeatedStream = 2.
Proof. vm_compute. done. Qed.

(** ** [Search] before [Load] *)

(** The country provider never panics in [Search]. *)
Lemma country_Search_returns caseOrbit (p : Provider country.Country) index query :
  returns (country.Search caseOrbit p index query).
Proof.
  unfold country.Search. destruct (loaded p); simpl; [|by eexists].
  destruct (indexNamed p index) as [ci|]; [|by eexists].
  rewrite doSearch_eq. by eexists.
Qed.

(** The language provider does not panic in [Search] once it is loaded. *)
Lemma language_Search_returns caseOrbit (p : Provider language.Language) index query :
  loaded p = true → returns (language.Search caseOrbit p index query).
Proof.
  intros Hl. unfold language.Search. rewrite Hl. simpl.
  destruct (indexNamed p index) as [li|]; [|by eexists].
  rewrite doSearch_eq. by eexists.
Qed.

(** C3. The specification has it that no operation panics. [Search] of the
    language provider does: on a provider that is not loaded it calls [err.Error()]
    on its named result [err], which is nil, and the call panics with a nil
    dereference before an error value is built, whatever the index name and
    the query. ([Load] of both providers and [Search] of the country
    provider return on every input: [country_Load_returns],
    [language_Load_returns], [country_Search_returns].) *)
Theorem language_Search_not_loaded_panics (caseOrbit : Z → Z → bool)
    (p : Provider language.Language) (index query : string) :
  loaded p = false →
  language.Search caseOrbit p index query = Panic NilDereference.
Proof. intros Hl. unfold language.Search. by rewrite Hl. Qed.

Lemma language_Search_not_loaded_panics_witness :
  language.Search latin1Orbit zeroProvider "alpha" "a" = Panic NilDereference.
Proof.
  apply (language_Search_not_loaded_panics latin1Orbit zeroProvider "alpha" "a").
  reflexivity.
Defined.

(** C4. The specification has it that [Search] on a provider that is not
    loaded fails with an error of the kind "service unavailable". On the zero value of
    the providers, the country provider returns the nil result and the
    plain error of [errors.New], which carries no status, and the language
    provider panics, so it returns neither a result nor an error. *)
Theorem Search_before_Load (caseOrbit : Z → Z → bool) (index query : string) :
  country.Search caseOrbit zeroProvider index query
  = Ret (None, Some (errorString
      "this should be a 503 Service Unavailable by the time it gets to the client"))
  ∧ language.Search caseOrbit zeroProvider index query = Panic NilDereference.
Proof. done. Qed.

(** ** The fuel of [EqualFold] *)

Lemma str_from_length s n : String.length (str_from s n) = String.length s - n.
Proof.
  revert s. induction n as [|n IH]; intros [|c s]; simpl; try done.
Qed.

Lemma DecodeRuneInString_size c s :
  1 ≤ (DecodeRuneInString (String c s)).2.
Proof.
  unfold DecodeRuneInString.
  destruct (first (byte c)) as [[[sz lo] hi]|]; [|simpl; lia].
  repeat (match goal with |- context [if ?b then _ else _] => destruct b end);
    simpl; lia.
Qed.

Lemma nextRune_length c s :
  String.length (nextRune (String c s)).2 ≤ String.length s.
Proof.
  unfold nextRune. destruct (byte c <? RuneSelf)%Z; [done|].
  pose proof (DecodeRuneInString_size c s) as Hsize.
  destruct (DecodeRuneInString (String c s)) as [r size]. simpl in *.
  destruct size as [|size]; [lia|]. rewrite str_from_length. lia.
Qed.

(** The loop of [EqualFold] ends within [len(s)] turns: more fuel does not
    change what it returns. *)
Lemma EqualFold_loop_fuel caseOrbit n s t :
  String.length s ≤ n →
  EqualFold_loop caseOrbit n s t = EqualFold caseOrbit s t.
Proof.
  unfold EqualFold.
  assert (∀ n m s t, String.length s ≤ n → String.length s ≤ m →
            EqualFold_loop caseOrbit n s t = EqualFold_loop caseOrbit m s t)
    as Hfuel; [|by intros; apply Hfuel].
  clear n s t. induction n as [|n IH]; intros m s t Hn Hm.
  - destruct s; [|simpl in Hn; lia]. by destruct m.
  - destruct s as [|c s]; [by destruct m|].
    destruct t as [|d t]; [by destruct m|].
    destruct m as [|m]; [simpl in Hm; lia|].
    cbn [EqualFold_loop].
    pose proof (nextRune_length c s) as Hs.
    destruct (nextRune (String c s)) as [sr s'].
    destruct (nextRune (String d t)) as [tr t'].
    simpl in *. f_equal. apply IH; lia.
Qed.

(** ** More on [strings.EqualFold] and on the prefix *)

(** A string folds to itself, whatever the case orbits. *)
Lemma EqualFold_refl caseOrbit s : EqualFold caseOrbit s s = true.
Proof.
  unfold EqualFold.
  assert (∀ n s, String.length s ≤ n → EqualFold_loop caseOrbit n s s = true)
    as Hloop; [|by apply Hloop].
  clear s. induction n as [|n IH]; intros s Hn.
  - destruct s; [done|simpl in Hn; lia].
  - destruct s as [|c s]; [done|]. cbn [EqualFold_loop].
    pose proof (nextRune_length c s) as Hs.
    destruct (nextRune (String c s)) as [sr s']. simpl in *.
    unfold foldRunes. rewrite Z.eqb_refl. simpl. apply IH. lia.
Qed.

Lemma substring_0_length n s :
  String.length (substring 0 n s) = n `min` String.length s.
Proof.
  revert s. induction n as [|n IH]; intros [|c s]; simpl; try done.
  by rewrite IH.
Qed.

Lemma substring_0_substring n s :
  substring 0 (String.length (substring 0 n s)) s = substring 0 n s.
Proof.
  revert s. induction n as [|n IH]; intros [|c s]; simpl; try done.
  by rewrite IH.
Qed.

(** Every query that is a leading part of a key selects the key. *)
Lemma selects_leading caseOrbit n k :
  selects caseOrbit (substring 0 n k) k = true.
Proof.
  unfold selects, foldsToPrefix. case_bool_decide; [done|].
  rewrite bool_decide_true by (rewrite substring_0_length; lia).
  by rewrite substring_0_substring, EqualFold_refl.
Qed.

(** ** The answer in terms of the loaded entities *)

Section ClosedForm.

Context {E : Type}.
Variable rangeKeys : gmap string (list E) → list string.
Hypothesis rangeKeys_ok : range_ok rangeKeys.
Variable key : E → string.

(** The sorted keys of the map of the groups are the sorted distinct keys
    of the entities. *)
Lemma sorted_keys_groupBy es :
  sort_Strings (rangeKeys (groupBy key ∅ es))
  = sort_Strings (remove_dups (key <$> es)).
Proof.
  apply sort_Strings_perm, NoDup_Permutation.
  - by apply rangeKeys_NoDup.
  - apply NoDup_remove_dups.
  - intros k. rewrite (rangeKeys_elem_of _ rangeKeys_ok), elem_of_remove_dups.
    apply lookup_groupBy_is_Some.
Qed.

Lemma doSearch_matchingGroups caseOrbit es query :
  doSearch caseOrbit (indexOf rangeKeys (groupBy key ∅ es)) query
  = Ret (matchingGroups caseOrbit key es query).
Proof.
  rewrite doSearch_eq. unfold matchingGroups. simpl.
  rewrite sorted_keys_groupBy. f_equal. apply list_fmap_ext.
  intros _ k _. apply group_groupBy.
Qed.

End ClosedForm.

Section MatchingGroups.

Context {E : Type}.
Variable caseOrbit : Z → Z → bool.
Variable key : E → string.

Lemma elem_of_matching_keys (es : list E) query k :
  k ∈ List.filter (selects caseOrbit query) (sort_Strings (remove_dups (key <$> es)))
  ↔ k ∈ key <$> es ∧ selects caseOrbit query k = true.
Proof.
  rewrite list_elem_of_In, filter_In, <- list_elem_of_In.
  by rewrite sort_Strings_Permutation, elem_of_remove_dups.
Qed.

Lemma NoDup_matching_keys (es : list E) query :
  NoDup (List.filter (selects caseOrbit query)
           (sort_Strings (remove_dups (key <$> es)))).
Proof.
  apply NoDup_ListNoDup, List.NoDup_filter, NoDup_ListNoDup.
  rewrite sort_Strings_Permutation. apply NoDup_remove_dups.
Qed.

(** The groups of the keys [ks], when [c] is put in front of the entities:
    [c] goes to the front of the group of its key. *)
Lemma concat_groups_cons (ks : list string) (c : E) (es : list E) :
  NoDup ks →
  concat ((λ k, List.filter (λ c, bool_decide (key c = k)) (c :: es)) <$> ks)
  ≡ₚ (if bool_decide (key c ∈ ks) then [c] else [])
     ++ concat ((λ k, List.filter (λ c, bool_decide (key c = k)) es) <$> ks).
Proof.
  induction 1 as [|k ks Hk Hks IH]; [done|].
  rewrite !fmap_cons, !concat_cons, IH. cbn [List.filter].
  destruct (decide (key c = k)) as [Heq|Hne].
  - rewrite bool_decide_true by done.
    rewrite (bool_decide_true (key c ∈ k :: ks)) by (rewrite Heq; left).
    rewrite (bool_decide_false (key c ∈ ks)) by (by rewrite Heq).
    done.
  - rewrite bool_decide_false by done.
    destruct (decide (key c ∈ ks)) as [Hin|Hnin].
    + rewrite (bool_decide_true (key c ∈ ks)) by done.
      rewrite (bool_decide_true (key c ∈ k :: ks)) by (by right).
      simpl. by rewrite Permutation_middle.
    + rewrite (bool_decide_false (key c ∈ ks)) by done.
      rewrite (bool_decide_false (key c ∈ k :: ks)); [done|].
      rewrite elem_of_cons. by intros [?|?].
Qed.

Lemma concat_groups (ks : list string) (es : list E) :
  NoDup ks →
  concat ((λ k, List.filter (λ c, bool_decide (key c = k)) es) <$> ks)
  ≡ₚ List.filter (λ c, bool_decide (key c ∈ ks)) es.
Proof.
  intros Hks. induction es as [|c es IH].
  - simpl. induction ks as [|k ks IHks]; [done|].
    simpl. apply IHks. by apply NoDup_cons in Hks as [_ ?].
  - rewrite concat_groups_cons, IH by done. cbn [List.filter].
    by destruct (bool_decide (key c ∈ ks)).
Qed.

(** The groups of an answer hold, together, each entity of a selected key
    once. *)
Lemma concat_matchingGroups (es : list E) query :
  concat (matchingGroups caseOrbit key es query)
  ≡ₚ List.filter (λ c, selects caseOrbit query (key c)) es.
Proof.
  unfold matchingGroups. rewrite concat_groups by apply NoDup_matching_keys.
  erewrite filter_ext_in; [done|]. intros c Hc%list_elem_of_In. simpl.
  destruct (selects caseOrbit query (key c)) eqn:Hsel.
  - apply bool_decide_eq_true, elem_of_matching_keys.
    split; [|done]. apply list_elem_of_fmap. eauto.
  - apply bool_decide_eq_false. rewrite elem_of_matching_keys.
    intros [_ ?]. congruence.
Qed.

End MatchingGroups.

Lemma filter_all {A : Type} (f : A → bool) (l : list A) :
  (∀ x, x ∈ l → f x = true) → List.filter f l = l.
Proof.
  induction l as [|x l IH]; intros Hf; simpl; [done|].
  rewrite Hf by left. f_equal. apply IH. intros y Hy. apply Hf. by right.
Qed.

Lemma filter_none {A : Type} (f : A → bool) (l : list A) :
  (∀ x, x ∈ l → f x = false) → List.filter f l = [].
Proof.
  induction l as [|x l IH]; intros Hf; simpl; [done|].
  rewrite Hf by left. apply IH. intros y Hy. apply Hf. by right.
Qed.

Lemma countryIndexesOf_lookup rangeKeys cs index key :
  (index, key) ∈ countryIndexDefinitions →
  countryIndexesOf rangeKeys cs !! index
  = Some (indexOf rangeKeys (groupBy key ∅ cs)).
Proof.
  unfold countryIndexDefinitions. rewrite !elem_of_cons, elem_of_nil.
  intros [[= -> ->]|[[= -> ->]|[[= -> ->]|[[= -> ->]|[]]]]]; done.
Qed.

Lemma languageIndexesOf_lookup rangeKeys ls index key :
  (index, key) ∈ languageIndexDefinitions →
  languageIndexesOf rangeKeys ls !! index
  = Some (indexOf rangeKeys (groupBy key ∅ ls)).
Proof.
  unfold languageIndexDefinitions. rewrite !elem_of_cons, elem_of_nil.
  intros [[= -> ->]|[[= -> ->]|[]]]; done.
Qed.

Lemma sampleStream_Load :
  country.Load rangeAscending [] zeroProvider sampleGlobals
  = Ret (sampleCountries, sampleGlobalsLoaded, (3, None)).
Proof. vm_compute. reflexivity. Qed.

Lemma sampleBody_Load :
  language.Load rangeAscending (inr sampleBody) zeroProvider (language.mkGlobals ∅ ∅)
  = Ret (sampleLanguages, sampleLanguageGlobalsLoaded, (4, None)).
Proof. vm_compute. reflexivity. Qed.

Lemma alpha2_definition : ("alpha2", country.Alpha2Code) ∈ countryIndexDefinitions.
Proof. unfold countryIndexDefinitions. rewrite !elem_of_cons. auto. Qed.

Lemma name_definition : ("name", language.EnglishName) ∈ languageIndexDefinitions.
Proof. unfold languageIndexDefinitions. rewrite !elem_of_cons. auto. Qed.

(** ** The answer of a loaded provider *)

(** X5. After a [Load] without error, [Search] of the country provider on
    each of its four indexes returns, without error, the answer read off the
    stream: for the distinct values of the attribute of the index, in
    ascending byte-wise order, that the query selects, the records of that
    value in the order of the stream. *)
Theorem country_Search_closed_form (caseOrbit : Z → Z → bool)
    (rangeKeys : gmap string (list country.Country) → list string)
    unread p0 g0 p g n index key query :
  range_ok rangeKeys →
  country.Load rangeKeys unread p0 g0 = Ret (p, g, (n, None)) →
  (index, key) ∈ countryIndexDefinitions →
  country.Search caseOrbit p index query
  = Ret (Some (matchingGroups caseOrbit key
                 (countryOf <$> country.countrydata g0) query), None).
Proof.
  intros Hrk Hload Hdef.
  apply country_Load_inv in Hload as (_ & _ & ->); [|done].
  unfold country.Search, indexNamed. simpl.
  rewrite (countryIndexesOf_lookup _ _ _ _ Hdef).
  by rewrite (doSearch_matchingGroups rangeKeys Hrk).
Qed.

Lemma country_Search_closed_form_witness :
  country.Search latin1Orbit sampleCountries "alpha2" "a"
  = Ret (Some (matchingGroups latin1Orbit country.Alpha2Code
                 (countryOf <$> sampleStream) "a"), None).
Proof.
  apply (country_Search_closed_form latin1Orbit rangeAscending
           [] zeroProvider sampleGlobals sampleCountries sampleGlobalsLoaded 3
           "alpha2" country.Alpha2Code "a").
  - apply rangeAscending_ok.
  - vm_compute. reflexivity.
  - unfold countryIndexDefinitions. rewrite !elem_of_cons. auto.
Defined.

(** X6. After a [Load] without error, [Search] of the language provider on
    each of its two indexes returns, without error, the answer read off the
    body of the response: index ["alpha"] is keyed by the bibliographic
    alpha-3 code and index ["name"] by the English name. *)
Theorem language_Search_closed_form (caseOrbit : Z → Z → bool)
    (rangeKeys : gmap string (list language.Language) → list string)
    body p0 g0 p g n index key query :
  range_ok rangeKeys →
  language.Load rangeKeys (inr body) p0 g0 = Ret (p, g, (n, None)) →
  (index, key) ∈ languageIndexDefinitions →
  language.Search caseOrbit p index query
  = Ret (Some (matchingGroups caseOrbit key (languageOf <$> body) query), None).
Proof.
  intros Hrk Hload Hdef.
  apply language_Load_inv in Hload as (body' & [= <-] & _ & _ & ->); [|done].
  unfold language.Search, indexNamed. simpl.
  rewrite (languageIndexesOf_lookup _ _ _ _ Hdef).
  by rewrite (doSearch_matchingGroups rangeKeys Hrk).
Qed.

Lemma language_Search_closed_form_witness :
  language.Search latin1Orbit sampleLanguages "name" "eng"
  = Ret (Some (matchingGroups latin1Orbit language.EnglishName
                 (languageOf <$> sampleBody) "eng"), None).
Proof.
  apply (language_Search_closed_form latin1Orbit rangeAscending sampleBody
           zeroProvider (language.mkGlobals ∅ ∅) sampleLanguages
           sampleLanguageGlobalsLoaded 4 "name" language.EnglishName "eng").
  - apply rangeAscending_ok.
  - vm_compute. reflexivity.
  - unfold languageIndexDefinitions. rewrite !elem_of_cons. auto.
Defined.

(** Two languages under one English name come in one group, in the order of
    the body. *)
Example language_Search_sample :
  language.Search latin1Orbit sampleLanguages "name" "eng"
  = Ret (Some [ [ language.mkLanguage "eng" EmptyString "en" "English" "anglais";
                  language.mkLanguage "enm" EmptyString EmptyString "English"
                    "anglais moyen" ] ], None).
Proof. vm_compute. reflexivity. Qed.

(** X7. After a [Load] without error, the groups that [Search] of the
    country provider returns hold, together, exactly the records of the
    stream whose key the query selects, each as many times as the stream
    has it: no record is lost and none is returned twice. *)
Theorem country_Search_no_record_lost (caseOrbit : Z → Z → bool)
    (rangeKeys : gmap string (list country.Country) → list string)
    unread p0 g0 p g n index key query :
  range_ok rangeKeys →
  country.Load rangeKeys unread p0 g0 = Ret (p, g, (n, None)) →
  (index, key) ∈ countryIndexDefinitions →
  ∃ groups,
    country.Search caseOrbit p index query = Ret (Some groups, None)
    ∧ concat groups
      ≡ₚ List.filter (λ c, selects caseOrbit query (key c))
           (countryOf <$> country.countrydata g0).
Proof.
  intros Hrk Hload Hdef. eexists. split.
  - by eapply country_Search_closed_form.
  - apply concat_matchingGroups.
Qed.

Lemma country_Search_no_record_lost_witness :
  ∃ groups,
    country.Search latin1Orbit sampleCountries "alpha2" "A" = Ret (Some groups, None)
    ∧ concat groups
      ≡ₚ List.filter (λ c, selects latin1Orbit "A" (country.Alpha2Code c))
           (countryOf <$> sampleStream).
Proof.
  apply (country_Search_no_record_lost latin1Orbit rangeAscending
           [] zeroProvider sampleGlobals sampleCountries sampleGlobalsLoaded 3
           "alpha2" country.Alpha2Code "A").
  - apply rangeAscending_ok.
  - apply sampleStream_Load.
  - apply alpha2_definition.
Defined.

(** X8. After a [Load] without error, every record of the stream is found
    by every leading part of its key, the whole key included: the answer to
    the first [m] bytes of the key of a record has a group that holds the
    record. *)
Theorem country_Search_leading_part (caseOrbit : Z → Z → bool)
    (rangeKeys : gmap string (list country.Country) → list string)
    unread p0 g0 p g n index key c m :
  range_ok rangeKeys →
  country.Load rangeKeys unread p0 g0 = Ret (p, g, (n, None)) →
  (index, key) ∈ countryIndexDefinitions →
  c ∈ countryOf <$> country.countrydata g0 →
  ∃ groups group,
    country.Search caseOrbit p index (substring 0 m (key c))
    = Ret (Some groups, None)
    ∧ group ∈ groups ∧ c ∈ group.
Proof.
  intros Hrk Hload Hdef Hc.
  exists (matchingGroups caseOrbit key (countryOf <$> country.countrydata g0)
            (substring 0 m (key c))),
         (List.filter (λ c', bool_decide (key c' = key c))
            (countryOf <$> country.countrydata g0)).
  split; [by eapply country_Search_closed_form|]. split.
  - unfold matchingGroups. apply list_elem_of_fmap. exists (key c).
    split; [done|]. apply elem_of_matching_keys. split.
    + apply list_elem_of_fmap. eauto.
    + apply selects_leading.
  - apply list_elem_of_In, filter_In. split; [by apply list_elem_of_In|].
    by apply bool_decide_eq_true.
Qed.

Lemma country_Search_leading_part_witness :
  ∃ groups group,
    country.Search latin1Orbit sampleCountries "name"
      (substring 0 3 (country.EnglishName
                        (country.mkCountry "Albania" "AL" "ALB" "008")))
    = Ret (Some groups, None)
    ∧ group ∈ groups ∧ country.mkCountry "Albania" "AL" "ALB" "008" ∈ group.
Proof.
  apply (country_Search_leading_part latin1Orbit rangeAscending
           [] zeroProvider sampleGlobals sampleCountries sampleGlobalsLoaded 3
           "name" country.EnglishName _ 3).
  - apply rangeAscending_ok.
  - apply sampleStream_Load.
  - unfold countryIndexDefinitions. rewrite !elem_of_cons. auto.
  - simpl. rewrite !elem_of_cons. auto.
Defined.

(** X15. After a [Load] without error, no group that [Search] of the country
    provider returns is empty, and the records of a group are records of
    the stream that share one key, a key that the query selects. *)
Theorem country_Search_groups (caseOrbit : Z → Z → bool)
    (rangeKeys : gmap string (list country.Country) → list string)
    unread p0 g0 p g n index key query groups group :
  range_ok rangeKeys →
  country.Load rangeKeys unread p0 g0 = Ret (p, g, (n, None)) →
  (index, key) ∈ countryIndexDefinitions →
  country.Search caseOrbit p index query = Ret (Some groups, None) →
  group ∈ groups →
  group ≠ []
  ∧ ∃ k, selects caseOrbit query k = true
         ∧ ∀ c, c ∈ group → key c = k ∧ c ∈ countryOf <$> country.countrydata g0.
Proof.
  intros Hrk Hload Hdef Hsearch Hgroup.
  rewrite (country_Search_closed_form _ _ _ _ _ _ _ _ _ _ _ Hrk Hload Hdef)
    in Hsearch.
  injection Hsearch as <-. unfold matchingGroups in Hgroup.
  apply list_elem_of_fmap in Hgroup as (k & -> & Hk).
  apply elem_of_matching_keys in Hk as [Hk Hsel].
  apply list_elem_of_fmap in Hk as (c0 & -> & Hc0). split.
  - intros Hnil.
    assert (c0 ∈ List.filter (λ c, bool_decide (key c = key c0))
                   (countryOf <$> country.countrydata g0)) as Hin.
    { apply list_elem_of_In, filter_In. split; [by apply list_elem_of_In|].
      by apply bool_decide_eq_true. }
    rewrite Hnil in Hin. by apply elem_of_nil in Hin.
  - exists (key c0). split; [done|].
    intros c [Hc Hkey]%list_elem_of_In%filter_In.
    apply bool_decide_eq_true in Hkey. by apply list_elem_of_In in Hc.
Qed.

Lemma country_Search_groups_witness :
  [country.mkCountry "Afghanistan" "AF" "AFG" "004"] ≠ []
  ∧ ∃ k, selects latin1Orbit "af" k = true
         ∧ ∀ c, c ∈ [country.mkCountry "Afghanistan" "AF" "AFG" "004"] →
                country.Alpha3Code c = k ∧ c ∈ countryOf <$> sampleStream.
Proof.
  apply (country_Search_groups latin1Orbit rangeAscending
           [] zeroProvider sampleGlobals sampleCountries sampleGlobalsLoaded 3
           "alpha3" country.Alpha3Code "af"
           [[country.mkCountry "Afghanistan" "AF" "AFG" "004"]]).
  - apply rangeAscending_ok.
  - apply sampleStream_Load.
  - unfold countryIndexDefinitions. rewrite !elem_of_cons. auto.
  - vm_compute. reflexivity.
  - left.
Defined.

(** X16. After a [Load] without error, a query other than ["_dump"] that is
    longer, in bytes, than every key of an index gets the empty answer and
    no error: the length test keeps [doSearch] from slicing a key beyond
    its end. *)
Theorem country_Search_long_query (caseOrbit : Z → Z → bool)
    (rangeKeys : gmap string (list country.Country) → list string)
    unread p0 g0 p g n index key query :
  range_ok rangeKeys →
  country.Load rangeKeys unread p0 g0 = Ret (p, g, (n, None)) →
  (index, key) ∈ countryIndexDefinitions →
  query ≠ "_dump" →
  (∀ c, c ∈ countryOf <$> country.countrydata g0 →
        String.length (key c) < String.length query) →
  country.Search caseOrbit p index query = Ret (Some [], None).
Proof.
  intros Hrk Hload Hdef Hq Hlong.
  rewrite (country_Search_closed_form _ _ _ _ _ _ _ _ _ _ _ Hrk Hload Hdef).
  unfold matchingGroups. rewrite filter_none; [done|].
  intros k Hk. rewrite sort_Strings_Permutation, elem_of_remove_dups in Hk.
  apply list_elem_of_fmap in Hk as (c & -> & Hc).
  unfold selects, foldsToPrefix. rewrite bool_decide_false by done.
  rewrite bool_decide_false; [done|]. specialize (Hlong c Hc). lia.
Qed.

Lemma country_Search_long_query_witness :
  country.Search latin1Orbit sampleCountries "alpha2" "AFG" = Ret (Some [], None).
Proof.
  apply (country_Search_long_query latin1Orbit rangeAscending
           [] zeroProvider sampleGlobals sampleCountries sampleGlobalsLoaded 3
           "alpha2" country.Alpha2Code "AFG").
  - apply rangeAscending_ok.
  - apply sampleStream_Load.
  - apply alpha2_definition.
  - discriminate.
  - simpl. intros c. rewrite !elem_of_cons, elem_of_nil.
    intros [->|[->|[->|[]]]]; simpl; lia.
Defined.

(** ** [doSearch] and [storeData] on any value *)

(** X1. [doSearch] panics on no index and no query, whether the keys of the
    index are sorted or not, repeated or not, in its map or not: it returns
    one group for each key that the query selects, in the order of the key
    slice, and the nil group for a key that the map does not have. *)
Theorem doSearch_any_index {E : Type} (caseOrbit : Z → Z → bool)
    (ci : Index E) (query : string) :
  doSearch caseOrbit ci query
  = Ret ((λ k, default [] (indexMap ci !! k))
         <$> List.filter
               (λ k, if bool_decide (query = "_dump") then true
                     else bool_decide (String.length query ≤ String.length k)
                          && EqualFold caseOrbit query
                               (substring 0 (String.length query) k))
               (indexKeys ci)).
Proof. apply doSearch_eq. Qed.

(** X2. [storeData] on a provider whose map of indexes is nil panics on the
    assignment to the map, after it has copied and sorted the keys. *)
Theorem storeData_nil_map {E : Type}
    (rangeKeys : gmap string (list E) → list string) (s : string)
    (m : gmap string (list E)) (p : Provider E) :
  range_ok rangeKeys →
  indexes p = None →
  storeData rangeKeys s m p = Panic NilMapAssignment.
Proof. intros Hrk Hnil. by apply storeData_nil. Qed.

Lemma storeData_nil_map_witness :
  storeData rangeAscending "name"
    (groupBy country.EnglishName ∅ (countryOf <$> sampleStream)) zeroProvider
  = Panic NilMapAssignment.
Proof.
  apply (storeData_nil_map rangeAscending "name" _ zeroProvider).
  - apply rangeAscending_ok.
  - reflexivity.
Defined.

(** X3. [storeData] on a provider whose map of indexes is not nil returns a
    provider with the same [loaded] and [size], on which the index of the
    given name is the new index (it takes the place of an index that had
    that name) and the index of every other name is as it was. *)
Theorem storeData_lookup {E : Type}
    (rangeKeys : gmap string (list E) → list string) (s : string)
    (m : gmap string (list E)) (p : Provider E) (idx : gmap string (Index E)) :
  range_ok rangeKeys →
  indexes p = Some idx →
  ∃ p',
    storeData rangeKeys s m p = Ret p'
    ∧ loaded p' = loaded p
    ∧ psize p' = psize p
    ∧ ∀ s', indexNamed p' s'
            = if decide (s = s')
              then Some (mkIndex m (sort_Strings (rangeKeys m)))
              else indexNamed p s'.
Proof.
  intros Hrk Hidx. eexists. split; [by apply storeData_eq|].
  split; [done|]. split; [done|].
  intros s'. unfold indexNamed. simpl. rewrite Hidx. simpl.
  rewrite lookup_insert. by case_decide.
Qed.

Lemma storeData_lookup_witness :
  ∃ p',
    storeData rangeDescending "alpha2"
      (groupBy country.Alpha2Code ∅ (countryOf <$> repeatedStream))
      sampleCountries = Ret p'
    ∧ loaded p' = loaded sampleCountries
    ∧ psize p' = psize sampleCountries
    ∧ ∀ s', indexNamed p' s'
            = if decide ("alpha2" = s')
              then Some (mkIndex
                           (groupBy country.Alpha2Code ∅ (countryOf <$> repeatedStream))
                           (sort_Strings
                              (rangeDescending
                                 (groupBy country.Alpha2Code ∅
                                    (countryOf <$> repeatedStream)))))
              else indexNamed sampleCountries s'.
Proof.
  apply (storeData_lookup rangeDescending "alpha2" _ sampleCountries
           (countryIndexesOf rangeAscending (countryOf <$> sampleStream))).
  - apply rangeDescending_ok.
  - reflexivity.
Defined.

(** ** The provider after [Load] *)

(** X4. After a [Load] without error the provider is loaded, its [size] is
    the count that [Load] returned, and it has an index under a name if and
    only if the name is one of those under which [Load] stores an index:
    four names for the country provider, two for the language provider. *)
Theorem Load_ready
    (countryRange : gmap string (list country.Country) → list string)
    (languageRange : gmap string (list language.Language) → list string) :
  range_ok countryRange →
  range_ok languageRange →
  (∀ unread p0 g0 p g n,
     country.Load countryRange unread p0 g0 = Ret (p, g, (n, None)) →
     loaded p = true ∧ psize p = n
     ∧ ∀ index, is_Some (indexNamed p index)
                ↔ index ∈ ["name"; "alpha2"; "alpha3"; "number"])
  ∧ (∀ get p0 g0 p g n,
       language.Load languageRange get p0 g0 = Ret (p, g, (n, None)) →
       loaded p = true ∧ psize p = n
       ∧ ∀ index, is_Some (indexNamed p index) ↔ index ∈ ["alpha"; "name"]).
Proof.
  intros HrkC HrkL. split.
  - intros unread p0 g0 p g n Hload.
    apply country_Load_inv in Hload as (_ & _ & ->); [|done].
    split; [done|]. split; [done|]. intros index.
    unfold indexNamed. simpl. split.
    + intros Hsome. destruct (decide (index ∈ ["name"; "alpha2"; "alpha3"; "number"]))
        as [|Hnot]; [done|].
      rewrite countryIndexesOf_lookup_None in Hsome by done.
      by destruct Hsome.
    + rewrite !elem_of_cons, elem_of_nil.
      intros [->|[->|[->|[->|[]]]]]; by eexists.
  - intros get p0 g0 p g n Hload.
    apply language_Load_inv in Hload as (body & _ & _ & _ & ->); [|done].
    split; [done|]. split; [done|]. intros index.
    unfold indexNamed. simpl. split.
    + intros Hsome. destruct (decide (index ∈ ["alpha"; "name"]))
        as [|Hnot]; [done|].
      rewrite languageIndexesOf_lookup_None in Hsome by done.
      by destruct Hsome.
    + rewrite !elem_of_cons, elem_of_nil.
      intros [->|[->|[]]]; by eexists.
Qed.

Lemma Load_ready_witness :
  (loaded sampleCountries = true ∧ psize sampleCountries = 3
   ∧ ∀ index, is_Some (indexNamed sampleCountries index)
              ↔ index ∈ ["name"; "alpha2"; "alpha3"; "number"])
  ∧ (loaded sampleLanguages = true ∧ psize sampleLanguages = 4
     ∧ ∀ index, is_Some (indexNamed sampleLanguages index)
                ↔ index ∈ ["alpha"; "name"]).
Proof.
  split.
  - apply (proj1 (Load_ready rangeAscending rangeAscending
                    rangeAscending_ok rangeAscending_ok)
             [] zeroProvider sampleGlobals sampleCountries sampleGlobalsLoaded 3).
    apply sampleStream_Load.
  - apply (proj2 (Load_ready rangeAscending rangeAscending
                    rangeAscending_ok rangeAscending_ok)
             (inr sampleBody) zeroProvider (language.mkGlobals ∅ ∅)
             sampleLanguages sampleLanguageGlobalsLoaded 4).
    apply sampleBody_Load.
Defined.

(** X14. The count that a [Load] without error returns is the number of
    groups that [Search] then returns for the query ["_dump"] on the primary
    index (["name"] of the country provider, ["alpha"] of the language
    provider). *)
Theorem Load_count_dump (caseOrbit : Z → Z → bool)
    (countryRange : gmap string (list country.Country) → list string)
    (languageRange : gmap string (list language.Language) → list string) :
  range_ok countryRange →
  range_ok languageRange →
  (∀ unread p0 g0 p g n,
     country.Load countryRange unread p0 g0 = Ret (p, g, (n, None)) →
     ∃ groups,
       country.Search caseOrbit p "name" "_dump" = Ret (Some groups, None)
       ∧ length groups = n)
  ∧ (∀ get p0 g0 p g n,
       language.Load languageRange get p0 g0 = Ret (p, g, (n, None)) →
       ∃ groups,
         language.Search caseOrbit p "alpha" "_dump" = Ret (Some groups, None)
         ∧ length groups = n).
Proof.
  intros HrkC HrkL. split.
  - intros unread p0 g0 p g n Hload. eexists. split.
    + eapply country_Search_closed_form; [done..|].
      unfold countryIndexDefinitions. rewrite !elem_of_cons. auto.
    + apply country_Load_inv in Hload as (_ & -> & _); [|done].
      unfold matchingGroups. rewrite length_fmap, filter_all by done.
      rewrite (Permutation_length (sort_Strings_Permutation _)).
      by rewrite size_groupBy.
  - intros get p0 g0 p g n Hload.
    pose proof Hload as (body & -> & _ & -> & _)%language_Load_inv; [|done].
    eexists. split.
    + eapply language_Search_closed_form; [done..|].
      unfold languageIndexDefinitions. rewrite !elem_of_cons. auto.
    + unfold matchingGroups. rewrite length_fmap, filter_all by done.
      rewrite (Permutation_length (sort_Strings_Permutation _)).
      by rewrite size_groupBy.
Qed.

Lemma Load_count_dump_witness :
  (∃ groups,
     language.Search latin1Orbit sampleLanguages "alpha" "_dump"
     = Ret (Some groups, None)
     ∧ length groups = 4)
  ∧ (∃ groups,
       country.Search latin1Orbit sampleCountries "name" "_dump"
       = Ret (Some groups, None)
       ∧ length groups = 3).
Proof.
  split.
  - apply (proj2 (Load_count_dump latin1Orbit rangeAscending rangeAscending
                    rangeAscending_ok rangeAscending_ok)
             (inr sampleBody) zeroProvider (language.mkGlobals ∅ ∅)
             sampleLanguages sampleLanguageGlobalsLoaded 4).
    apply sampleBody_Load.
  - apply (proj1 (Load_count_dump latin1Orbit rangeAscending rangeAscending
                    rangeAscending_ok rangeAscending_ok)
             [] zeroProvider sampleGlobals sampleCountries sampleGlobalsLoaded 3).
    apply sampleStream_Load.
Defined.

(** ** [Load] again *)

(** A provider loaded from the empty stream has the empty answer to every
    query on its four indexes. *)
Lemma country_Search_empty_stream caseOrbit rangeKeys unread p0 g0 p g n index query :
  range_ok rangeKeys →
  country.Load rangeKeys unread p0 g0 = Ret (p, g, (n, None)) →
  country.countrydata g0 = [] →
  index ∈ ["name"; "alpha2"; "alpha3"; "number"] →
  country.Search caseOrbit p index query = Ret (Some [], None).
Proof.
  intros Hrk Hload Hempty.
  assert (∀ key, (index, key) ∈ countryIndexDefinitions →
            country.Search caseOrbit p index query = Ret (Some [], None)) as Hkey.
  { intros key Hdef.
    rewrite (country_Search_closed_form _ _ _ _ _ _ _ _ _ _ _ Hrk Hload Hdef).
    by rewrite Hempty. }
  unfold countryIndexDefinitions in Hkey.
  rewrite !elem_of_cons, !elem_of_nil.
  intros [->|[->|[->|[->|[]]]]]; eapply Hkey; rewrite !elem_of_cons; eauto 6.
Qed.

(** X9. A second [Load] of the country provider, after a [Load] without
    error, finds the reader [countrydata] at its end: it returns the count 0
    and no error, and leaves a loaded provider whose four indexes are empty,
    so that every [Search] on them returns the empty answer. *)
Theorem country_Load_twice
    (rangeKeys rangeKeys' : gmap string (list country.Country) → list string)
    unread unread' p0 g0 p g n :
  range_ok rangeKeys →
  range_ok rangeKeys' →
  country.Load rangeKeys unread p0 g0 = Ret (p, g, (n, None)) →
  ∃ p' g',
    country.Load rangeKeys' unread' p g = Ret (p', g', (0, None))
    ∧ loaded p' = true
    ∧ psize p' = 0
    ∧ ∀ caseOrbit index query,
        index ∈ ["name"; "alpha2"; "alpha3"; "number"] →
        country.Search caseOrbit p' index query = Ret (Some [], None).
Proof.
  intros Hrk Hrk' Hload.
  pose proof Hload as (Hok & _ & _)%country_Load_inv; [|done].
  rewrite (country_Load_ok _ Hrk _ _ _ Hok) in Hload.
  injection Hload as <- <- <-.
  match goal with |- context [country.Load _ _ ?p1 ?g1] =>
    pose proof (country_Load_ok rangeKeys' Hrk' unread' p1 g1 eq_refl) as Hload2
  end.
  simpl in Hload2. eexists _, _. split; [exact Hload2|].
  split; [done|]. split; [done|].
  intros caseOrbit index query Hindex.
  by eapply (country_Search_empty_stream _ _ _ _ _ _ _ _ _ _ Hrk' Hload2).
Qed.

Lemma country_Load_twice_witness :
  ∃ p' g',
    country.Load rangeDescending [] sampleCountries sampleGlobalsLoaded
    = Ret (p', g', (0, None))
    ∧ loaded p' = true
    ∧ psize p' = 0
    ∧ ∀ caseOrbit index query,
        index ∈ ["name"; "alpha2"; "alpha3"; "number"] →
        country.Search caseOrbit p' index query = Ret (Some [], None).
Proof.
  apply (country_Load_twice rangeAscending rangeDescending [] []
           zeroProvider sampleGlobals sampleCountries sampleGlobalsLoaded 3).
  - apply rangeAscending_ok.
  - apply rangeDescending_ok.
  - apply sampleStream_Load.
Defined.

(** X10. When the language provider is loaded and a later [Load] fails
    ([http.Get] fails, or a line of the body fails), the provider stays
    loaded but has lost its indexes: every [Search] then returns the nil
    result and the error of status 400 for an unknown index, not an error
    of status 503. *)
Theorem language_Load_again_failure (caseOrbit : Z → Z → bool)
    (rangeKeys : gmap string (list language.Language) → list string)
    get (p0 : Provider language.Language) g0 :
  loaded p0 = true →
  match get with inl _ => True | inr body => streamOK 5 body = false end →
  ∃ msg p g,
    language.Load rangeKeys get p0 g0
    = Ret (p, g, (0, Some (ServiceError msg StatusServiceUnavailable)))
    ∧ loaded p = true
    ∧ ∀ index query,
        language.Search caseOrbit p index query
        = Ret (None, Some (ServiceError ("No index on " +:+ index) StatusBadRequest)).
Proof.
  intros Hl Hbad.
  destruct (language_Load_bad rangeKeys get p0 g0 Hbad) as (msg & g & Hload).
  eexists msg, _, g. split; [done|]. split; [done|].
  intros index query. unfold language.Search. simpl. by rewrite Hl.
Qed.

Lemma language_Load_again_failure_witness :
  ∃ msg p g,
    language.Load rangeAscending (inl "dial tcp: i/o timeout") sampleLanguages
      sampleLanguageGlobalsLoaded
    = Ret (p, g, (0, Some (ServiceError msg StatusServiceUnavailable)))
    ∧ loaded p = true
    ∧ ∀ index query,
        language.Search latin1Orbit p index query
        = Ret (None, Some (ServiceError ("No index on " +:+ index) StatusBadRequest)).
Proof.
  apply (language_Load_again_failure latin1Orbit rangeAscending
           (inl "dial tcp: i/o timeout") sampleLanguages sampleLanguageGlobalsLoaded).
  - reflexivity.
  - exact I.
Defined.

(** The loop of [Load] ends at the first line that fails, with the message
    of the error of that line. *)
Lemma country_Load_loop_first_failure unread line good bad rest g :
  streamOK 4 good = true →
  lineOK 4 bad = false →
  ∃ g',
    country.Load_loop unread line (good ++ bad :: rest) g
    = Ret (g', Some (ServiceError
                       match bad with
                       | Fields _ => fieldCountError (S (line + length good))
                       | Broken msg => msg
                       end StatusServiceUnavailable)).
Proof.
  intros Hgood Hbad. revert line g Hgood.
  induction good as [|ln good IH]; intros line g; simpl.
  - intros _. rewrite Nat.add_0_r. destruct bad as [fs|msg]; simpl in *.
    + apply bool_decide_eq_false in Hbad. rewrite decide_False by done.
      by eexists.
    + by eexists.
  - intros [Hln Hrd]%andb_prop.
    rewrite (csvRead_line_ok _ _ _ Hln).
    destruct ln as [fs'|]; [|done]. simpl in Hln.
    apply bool_decide_eq_true in Hln.
    destruct (country_fields fs' Hln) as (r0 & r1 & r2 & r3 & ->). simpl.
    rewrite Nat.add_succ_r. by apply (IH (S line)).
Qed.

(** X13. [Load] of the country provider stops at the first line of the
    stream that [reader.Read()] fails on: whatever the lines after it, it
    returns the count 0 and a [ServiceError] of status 503 with the message
    of the error of that line, and the provider has the empty map of
    indexes, with [loaded] and [size] as they were. For a record with a
    number of fields other than 4 the message is that of the reader,
    ["record on line k: wrong number of fields"] with the line [k] of the
    record; for another failure it is the message of that failure. *)
Theorem country_Load_first_failure
    (rangeKeys : gmap string (list country.Country) → list string)
    unread p0 g0 good bad rest :
  country.countrydata g0 = good ++ bad :: rest →
  streamOK 4 good = true →
  lineOK 4 bad = false →
  ∃ g,
    country.Load rangeKeys unread p0 g0
    = Ret (mkProvider (loaded p0) (psize p0) (Some ∅), g,
           (0, Some (ServiceError
                       match bad with
                       | Fields _ =>
                         "record on line " +:+ pretty (S (length good))
                         +:+ ": wrong number of fields"
                       | Broken msg => msg
                       end StatusServiceUnavailable))).
Proof.
  intros Hdata Hgood Hbad. unfold country.Load. rewrite Hdata.
  destruct (country_Load_loop_first_failure unread 0 good bad rest
              (country.mkGlobals ∅ ∅ ∅ ∅ (good ++ bad :: rest)) Hgood Hbad)
    as [g' ->].
  simpl. by eexists.
Qed.

Lemma country_Load_first_failure_witness :
  (∃ g,
     country.Load rangeAscending [] zeroProvider
       (country.mkGlobals ∅ ∅ ∅ ∅ brokenStream)
     = Ret (mkProvider false 0 (Some ∅), g,
            (0, Some (ServiceError "record on line 2: wrong number of fields"
                        StatusServiceUnavailable))))
  ∧ (∃ g,
       country.Load rangeAscending [] zeroProvider
         (country.mkGlobals ∅ ∅ ∅ ∅ failingStream)
       = Ret (mkProvider false 0 (Some ∅), g,
              (0, Some (ServiceError "unexpected EOF" StatusServiceUnavailable)))).
Proof.
  split.
  - apply (country_Load_first_failure rangeAscending [] zeroProvider
             (country.mkGlobals ∅ ∅ ∅ ∅ brokenStream)
             [ Fields ["Afghanistan"; "AF"; "AFG"; "004"] ]
             (Fields ["Albania"; "AL"; "ALB"])
             []).
    + reflexivity.
    + reflexivity.
    + reflexivity.
  - apply (country_Load_first_failure rangeAscending [] zeroProvider
             (country.mkGlobals ∅ ∅ ∅ ∅ failingStream)
             [ Fields ["Afghanistan"; "AF"; "AFG"; "004"];
               Fields ["Albania"; "AL"; "ALB"; "008"] ]
             (Broken "unexpected EOF")
             [ Fields ["Algeria"; "DZ"; "DZA"; "012"] ]).
    + reflexivity.
    + reflexivity.
    + reflexivity.
Defined.

(** ** The two results of [Search] *)

(** X11. [Search] of the country provider panics on no provider value, index
    name and query, and returns either a result and the nil error, or the
    nil result and an error: a result when the provider is loaded and has
    an index of that name, an error otherwise. *)
Theorem country_Search_result_or_error (caseOrbit : Z → Z → bool)
    (p : Provider country.Country) (index query : string) :
  match loaded p, indexNamed p index with
  | true, Some ci =>
    ∃ groups, country.Search caseOrbit p index query = Ret (Some groups, None)
  | _, _ =>
    ∃ e, country.Search caseOrbit p index query = Ret (None, Some e)
  end.
Proof.
  unfold country.Search. destruct (loaded p); simpl.
  - destruct (indexNamed p index) as [ci|]; [|by eexists].
    rewrite doSearch_eq. by eexists.
  - destruct (indexNamed p index); by eexists.
Qed.

(** X12. [Search] of the language provider on a provider that is loaded
    does not panic, and returns either a result and the nil error (when the
    provider has an index of that name), or the nil result and an error. *)
Theorem language_Search_result_or_error (caseOrbit : Z → Z → bool)
    (p : Provider language.Language) (index query : string) :
  loaded p = true →
  match indexNamed p index with
  | Some li =>
    ∃ groups, language.Search caseOrbit p index query = Ret (Some groups, None)
  | None =>
    ∃ e, language.Search caseOrbit p index query = Ret (None, Some e)
  end.
Proof.
  intros Hl. unfold language.Search. rewrite Hl. simpl.
  destruct (indexNamed p index) as [li|]; [|by eexists].
  rewrite doSearch_eq. by eexists.
Qed.

Lemma language_Search_result_or_error_witness :
  ∃ groups,
    language.Search latin1Orbit sampleLanguages "alpha" "en" = Ret (Some groups, None).
Proof.
  apply (language_Search_result_or_error latin1Orbit sampleLanguages "alpha" "en").
  reflexivity.
Defined.
